(** * ChatSphere front end: the reconciliation core

    A shallow embedding of the client code that reconciles REST history,
    the socket.io push stream and local user actions:

    - [socket.js]      the module-level connection handle
                       ([connectSocket], [getSocket], [disconnectSocket]);
    - [Chat.jsx]       the page: conversation list, selection, message list,
                       the [new_message] listener and the join/leave effect;
    - [ChatWindow.jsx] the window: remote typing set, local typing debounce
                       and sending.

    The browser and the network are an explicit environment: a virtual clock,
    the timer table of [setTimeout], the requests in flight and a time-stamped
    trace of everything the client does to the outside (sockets opened and
    closed, signals emitted, console errors).  Event handlers are computations
    in a state-and-exception monad over the whole application state, so that
    a handler reads like its JavaScript source.

    An [async] function is split at its [await]: the call issues the request,
    and a separate event resumes the continuation when the request settles,
    so that other events can come in between.  React's passive effects are
    run as part of the event that changes their dependencies, clean-ups
    first.  Object identity, which decides whether an effect re-runs, is not
    a function of an object's fields; the selection events therefore say
    whether the page is handed the object it already has ([ReselectChat])
    or another one ([SelectChat]).  The model covers the page from its first
    commit on; tearing it down is [disconnectSocket] and is not an event. *)

From stdpp Require Import strings.
From stdpp Require Import base option list.
From Stdlib Require Import Lia.

(* ===================================================================== *)
(** * Data model *)
(* ===================================================================== *)

(** [currentUser] of [useAuth]; only [_id] is read by the core. *)
Record User := mkUser { user__id : string }.

(** A conversation summary as held in [chats] and [selectedChat]. *)
Record Chat := mkChat {
  _id : string;
  name : option string;
  chat_type : string;
  participants : list string;
  last_message_preview : option string;
  last_message_at : option string;
}.

(** A message record ([new_message] payload, element of [messages]).
    [msg_id] is the record's [_id]; [content] may be missing, which is what
    the optional chaining [msg.content?.slice] allows for. *)
Record Message := mkMessage {
  msg_id : string;
  chat_id : string;
  sender_id : string;
  content : option string;
  created_at : string;
}.

(** Payload of the server's [user_typing] signal. *)
Record TypingData := mkTypingData {
  typing_chat_id : string;
  user_id : string;
  is_typing : bool;
}.

(** Client-to-server signals with their [{chat_id}] payload. *)
Inductive Signal :=
| join_chat (chat_id : string)
| leave_chat (chat_id : string)
| typing_start (chat_id : string)
| typing_stop (chat_id : string).

(** The object returned by [io(url, options)].  [sock_no] is the identity of
    the object (the n-th socket opened by this page). *)
Record Socket := mkSocket {
  sock_no : nat;
  url : string;
  path : string;
  auth_token : string;
  transports : list string;
  reconnection : bool;
  reconnectionAttempts : nat;
  reconnectionDelay : nat;
  listeners : list string;
}.

(** A pending [setTimeout].  The only callback the core installs is
    [() => socket.emit("typing_stop", { chat_id: chat._id })], so a timer
    stores the two variables its closure captured. *)
Record Timer := mkTimer {
  timer_id : nat;
  due : nat;
  cb_socket : Socket;
  cb_chat : Chat;
}.

(** An HTTP request that has been issued and not yet settled.  The request
    of [handleSend] carries the [chat] its continuation closes over. *)
Inductive Request :=
| getChats
| getMessages (chatId : string)
| sendMessage (chat : Chat) (body : string).

(** How an awaited promise settles. *)
Inductive Settled (A : Type) :=
| Resolved (a : A)
| Rejected (err : string).
Arguments Resolved {A} a.
Arguments Rejected {A} err.

(** What the client does to the outside world. *)
Inductive Effect :=
| io_open (s : Socket)
| io_disconnect (s : Socket)
| emit (s : Socket) (sig : Signal)
| error_logged (what err : string).

#[global] Instance User_eq_dec : EqDecision User.
Proof. solve_decision. Defined.
#[global] Instance Chat_eq_dec : EqDecision Chat.
Proof. solve_decision. Defined.
#[global] Instance Message_eq_dec : EqDecision Message.
Proof. solve_decision. Defined.
#[global] Instance Signal_eq_dec : EqDecision Signal.
Proof. solve_decision. Defined.
#[global] Instance Socket_eq_dec : EqDecision Socket.
Proof. solve_decision. Defined.
#[global] Instance Request_eq_dec : EqDecision Request.
Proof. solve_decision. Defined.

(* ===================================================================== *)
(** * Application state *)
(* ===================================================================== *)

(** The browser, the network and the module-level variable of [socket.js]. *)
Record Env := mkEnv {
  now : nat;                        (* virtual clock, in ms *)
  cookie : option string;           (* the access-token cookie *)
  timers : list Timer;              (* pending timeouts, oldest first *)
  timers_made : nat;                (* timeouts created so far *)
  sockets_made : nat;               (* sockets opened so far *)
  requests : list Request;          (* requests in flight *)
  trace : list (nat * Effect);      (* time-stamped effects, oldest first *)
  socket : option Socket;           (* socket.js: let socket = null *)
}.

(** [Chat.jsx]: the four [useState] cells, and what its two socket effects
    currently have installed.  [on_new_message] is the [handleNewMessage]
    closure registered on the socket, represented by the [selectedChat] it
    captured; [room_cleanup] is the clean-up closure of the join effect,
    represented by the [socket] and [selectedChat] it captured. *)
Record Page := mkPage {
  chats : list Chat;
  selectedChat : option Chat;
  messages : list Message;
  loadingChats : bool;
  on_new_message : option (option Chat);
  room_cleanup : option (Socket * Chat);
}.

(** [ChatWindow.jsx]: its [useState] cells, the [typingTimeoutRef] and the
    [user_typing] closure registered on the socket, represented by the
    [chat] and [currentUser] it captured.  The [chat] and [messages] props
    are the page's [selectedChat] and [messages]. *)
Record Window := mkWindow {
  input : string;
  typingUsers : list string;
  sending : bool;
  typingTimeoutRef : option nat;
  on_user_typing : option (Chat * option User);
}.

Record App := mkApp {
  env : Env;
  currentUser : option User;
  page : Page;
  window : Window;
}.

(** ** Field updates *)

Definition with_env (f : Env → Env) (a : App) : App :=
  mkApp (f (env a)) (currentUser a) (page a) (window a).
Definition with_page (f : Page → Page) (a : App) : App :=
  mkApp (env a) (currentUser a) (f (page a)) (window a).
Definition with_window (f : Window → Window) (a : App) : App :=
  mkApp (env a) (currentUser a) (page a) (f (window a)).

Definition env_now v (e : Env) :=
  mkEnv v (cookie e) (timers e) (timers_made e) (sockets_made e)
        (requests e) (trace e) (socket e).
Definition env_timers v (e : Env) :=
  mkEnv (now e) (cookie e) v (timers_made e) (sockets_made e)
        (requests e) (trace e) (socket e).
Definition env_timers_made v (e : Env) :=
  mkEnv (now e) (cookie e) (timers e) v (sockets_made e)
        (requests e) (trace e) (socket e).
Definition env_sockets_made v (e : Env) :=
  mkEnv (now e) (cookie e) (timers e) (timers_made e) v
        (requests e) (trace e) (socket e).
Definition env_requests v (e : Env) :=
  mkEnv (now e) (cookie e) (timers e) (timers_made e) (sockets_made e)
        v (trace e) (socket e).
Definition env_trace v (e : Env) :=
  mkEnv (now e) (cookie e) (timers e) (timers_made e) (sockets_made e)
        (requests e) v (socket e).
Definition env_socket v (e : Env) :=
  mkEnv (now e) (cookie e) (timers e) (timers_made e) (sockets_made e)
        (requests e) (trace e) v.

Definition page_chats v (p : Page) :=
  mkPage v (selectedChat p) (messages p) (loadingChats p)
         (on_new_message p) (room_cleanup p).
Definition page_selectedChat v (p : Page) :=
  mkPage (chats p) v (messages p) (loadingChats p)
         (on_new_message p) (room_cleanup p).
Definition page_messages v (p : Page) :=
  mkPage (chats p) (selectedChat p) v (loadingChats p)
         (on_new_message p) (room_cleanup p).
Definition page_loadingChats v (p : Page) :=
  mkPage (chats p) (selectedChat p) (messages p) v
         (on_new_message p) (room_cleanup p).
Definition page_on_new_message v (p : Page) :=
  mkPage (chats p) (selectedChat p) (messages p) (loadingChats p)
         v (room_cleanup p).
Definition page_room_cleanup v (p : Page) :=
  mkPage (chats p) (selectedChat p) (messages p) (loadingChats p)
         (on_new_message p) v.

Definition window_input v (w : Window) :=
  mkWindow v (typingUsers w) (sending w) (typingTimeoutRef w) (on_user_typing w).
Definition window_typingUsers v (w : Window) :=
  mkWindow (input w) v (sending w) (typingTimeoutRef w) (on_user_typing w).
Definition window_sending v (w : Window) :=
  mkWindow (input w) (typingUsers w) v (typingTimeoutRef w) (on_user_typing w).
Definition window_typingTimeoutRef v (w : Window) :=
  mkWindow (input w) (typingUsers w) (sending w) v (on_user_typing w).
Definition window_on_user_typing v (w : Window) :=
  mkWindow (input w) (typingUsers w) (sending w) (typingTimeoutRef w) v.

(* ===================================================================== *)
(** * The handler monad *)
(* ===================================================================== *)

(** A handler either completes normally or throws. *)
Inductive Completion (A : Type) :=
| Normal (a : A)
| Throw (err : string).
Arguments Normal {A} a.
Arguments Throw {A} err.

Definition M (A : Type) : Type := App → Completion A * App.

#[global] Instance M_ret : MRet M := λ A a st, (Normal a, st).
#[global] Instance M_bind : MBind M := λ A B k m st,
  match m st with
  | (Normal a, st') => k a st'
  | (Throw err, st') => (Throw err, st')
  end.

Definition gets {A} (f : App → A) : M A := λ st, (Normal (f st), st).
Definition modify (f : App → App) : M unit := λ st, (Normal tt, f st).
Definition throw {A} (err : string) : M A := λ st, (Throw err, st).
Definition skip : M unit := mret tt.

(** [try { body } catch (err) { handler }] *)
Definition try_catch {A} (body : M A) (handler : string → M A) : M A := λ st,
  match body st with
  | (Normal a, st') => (Normal a, st')
  | (Throw err, st') => handler err st'
  end.

(** [try { body } finally { final }] *)
Definition try_finally {A} (body : M A) (final : M unit) : M A := λ st,
  match body st with
  | (r, st') =>
      match final st' with
      | (Normal _, st'') => (r, st'')
      | (Throw err, st'') => (Throw err, st'')
      end
  end.

(** [await p] for a promise that settles as [p]. *)
Definition await {A} (p : Settled A) : M A :=
  match p with
  | Resolved a => mret a
  | Rejected err => throw err
  end.

(** Run a handler for its effect on the state. *)
Definition exec {A} (m : M A) (st : App) : App := snd (m st).

(** ** Primitive effects *)

Definition log (e : Effect) : M unit :=
  modify (with_env (λ v, env_trace (trace v ++ [(now v, e)]) v)).

(** [socket.emit(name, { chat_id })] *)
Definition socket_emit (s : Socket) (sig : Signal) : M unit := log (emit s sig).

(** [console.error(what, err)] *)
Definition console_error (what err : string) : M unit :=
  log (error_logged what err).

(** Issue an HTTP request; the caller suspends at its [await]. *)
Definition request (r : Request) : M unit :=
  modify (with_env (λ v, env_requests (requests v ++ [r]) v)).

(** [setTimeout(() => socket.emit("typing_stop", ...), delay)]: timer ids
    are positive, as in browsers. *)
Definition setTimeout (s : Socket) (c : Chat) (delay : nat) : M nat := λ st,
  let id := S (timers_made (env st)) in
  let t := mkTimer id (now (env st) + delay) s c in
  (Normal id,
   with_env (λ v, env_timers_made id (env_timers (timers v ++ [t]) v)) st).

(** [clearTimeout(id)]: a no-op when no pending timer has that id. *)
Definition clearTimeout (id : nat) : M unit :=
  modify (with_env (λ v,
    env_timers (filter (λ t, timer_id t ≠ id) (timers v)) v)).

(* ===================================================================== *)
(** * socket.js *)
(* ===================================================================== *)

Definition SOCKET_URL : string := "http://localhost:8000".

(** [io(SOCKET_URL, { path, auth: { token }, transports, reconnection,
    reconnectionAttempts, reconnectionDelay })]: opens a connection and
    returns a new socket object. *)
Definition io (url : string) (token : string) : M Socket :=
  n ← gets (λ st, S (sockets_made (env st)));
  let s := mkSocket n url "/socket.io/" token ["websocket"; "polling"]
                    true 5 2000 [] in
  modify (with_env (env_sockets_made n));;
  log (io_open s);;
  mret s.

(** [socket.on(name, logger)] for the three logging listeners. *)
Definition socket_on (name : string) (s : Socket) : Socket :=
  mkSocket (sock_no s) (url s) (path s) (auth_token s) (transports s)
           (reconnection s) (reconnectionAttempts s) (reconnectionDelay s)
           (listeners s ++ [name]).

Definition getSocket : M (option Socket) := gets (λ st, socket (env st)).

Definition connectSocket (token : string) : M Socket :=
  cur ← getSocket;
  match cur with
  | Some s => mret s
  | None =>
      s ← io SOCKET_URL token;
      let s := socket_on "disconnect"
                 (socket_on "connect_error" (socket_on "connect" s)) in
      modify (with_env (env_socket (Some s)));;
      mret s
  end.

Definition disconnectSocket : M unit :=
  cur ← getSocket;
  match cur with
  | Some s =>
      log (io_disconnect s);;
      modify (with_env (env_socket None))
  | None => skip
  end.

(* ===================================================================== *)
(** * JavaScript built-ins used by the core *)
(* ===================================================================== *)

(** [s.slice(b, e)] for [0 <= b <= e]: the characters at positions
    [b .. e-1] that exist.  A character of the model is one code unit. *)
Definition slice (b e : nat) (s : string) : string := String.substring b (e - b) s.

(** [a || b] on an optional array (an array, even empty, is truthy). *)
Definition or_else {A} (a : option A) (b : A) : A := default b a.

(** Truthiness of an optional string: [undefined] and [""] are falsy. *)
Definition truthy (s : option string) : bool :=
  match s with
  | Some s => negb (String.eqb s "")
  | None => false
  end.

(** What [trim] strips: ECMAScript's white space and line terminators.
    Among the code units the model has these are TAB, LF, VT, FF, CR
    (9 to 13), SP (32) and NBSP (160); the others (U+FEFF, U+2028, U+2029
    and the space separators above U+00FF) lie outside it. *)
Definition is_white_space (c : Ascii.ascii) : bool :=
  let n := Ascii.nat_of_ascii c in
  (Nat.leb 9 n && Nat.leb n 13) || Nat.eqb n 32 || Nat.eqb n 160.

Fixpoint trim_start (s : string) : string :=
  match s with
  | String c s' => if is_white_space c then trim_start s' else s
  | EmptyString => EmptyString
  end.

(** [s.trim()] *)
Definition trim (s : string) : string :=
  String.rev (trim_start (String.rev (trim_start s))).

(** [arr.includes(x)] *)
Definition includes (x : string) (arr : list string) : bool :=
  bool_decide (x ∈ arr).

(* ===================================================================== *)
(** * Chat.jsx *)
(* ===================================================================== *)

Definition setChats (f : list Chat → list Chat) : M unit :=
  modify (with_page (λ p, page_chats (f (chats p)) p)).
Definition setSelectedChat (c : option Chat) : M unit :=
  modify (with_page (page_selectedChat c)).
Definition setMessages (f : list Message → list Message) : M unit :=
  modify (with_page (λ p, page_messages (f (messages p)) p)).
Definition setLoadingChats (b : bool) : M unit :=
  modify (with_page (page_loadingChats b)).

(** [getAccessToken()] of [utils/token.js]. *)
Definition getAccessToken : M (option string) := gets (λ st, cookie (env st)).

(** [fetchChats]: the call issues the request and suspends at [await];
    [fetchChats_resume] is the rest of the function, run when the request
    settles.  [res] is the [chats] field of the response body. *)
Definition fetchChats : M unit := request getChats.

Definition fetchChats_resume (res : Settled (option (list Chat))) : M unit :=
  try_finally
    (try_catch
       (r ← await res;
        setChats (λ _, or_else r []))
       (λ err, console_error "Failed to load chats:" err))
    (setLoadingChats false).

(** [fetchMessages(chatId)], split at its [await] in the same way.  The
    continuation does not use [chatId]. *)
Definition fetchMessages (chatId : string) : M unit := request (getMessages chatId).

Definition fetchMessages_resume (chatId : string)
    (res : Settled (option (list Message))) : M unit :=
  try_catch
    (r ← await res;
     setMessages (λ _, or_else r []))
    (λ err, console_error "Failed to load messages:" err).

(** The listener of the second effect, closed over [selectedChat]. *)
Definition project (msg : Message) (c : Chat) : Chat :=
  if decide (_id c = chat_id msg) then
    mkChat (_id c) (name c) (chat_type c) (participants c)
           (slice 0 60 <$> content msg)
           (Some (created_at msg))
  else c.

Definition handleNewMessage (selectedChat : option Chat) (msg : Message) : M unit :=
  match selectedChat with
  | Some sel =>
      if decide (chat_id msg = _id sel)
      then setMessages (λ prev, prev ++ [msg])
      else skip
  | None => skip
  end;;
  setChats (λ prev, project msg <$> prev).

Definition handleSelectChat (chat : Chat) : M unit :=
  setSelectedChat (Some chat);;
  setMessages (λ _, []).

Definition handleChatCreated (newChat : Chat) : M unit :=
  setChats (λ prev, newChat :: prev);;
  setSelectedChat (Some newChat).

(** First effect (mount): connect when a token is present, load the list. *)
Definition connect_effect : M unit :=
  token ← getAccessToken;
  match token with
  | Some t => if truthy token then connectSocket t;; skip else skip
  | None => skip
  end;;
  fetchChats.

(** Second effect, dependencies [[selectedChat]]. *)
Definition new_message_effect : M unit :=
  s ← getSocket;
  sel ← gets (λ st, selectedChat (page st));
  match s with
  | Some _ => modify (with_page (page_on_new_message (Some sel)))
  | None => skip
  end.

Definition new_message_cleanup : M unit :=
  modify (with_page (page_on_new_message None)).

(** Third effect, dependencies [[selectedChat, fetchMessages]]. *)
Definition room_effect : M unit :=
  s ← getSocket;
  sel ← gets (λ st, selectedChat (page st));
  match s, sel with
  | Some s, Some sel =>
      socket_emit s (join_chat (_id sel));;
      fetchMessages (_id sel);;
      modify (with_page (page_room_cleanup (Some (s, sel))))
  | _, _ => skip
  end.

Definition room_effect_cleanup : M unit :=
  c ← gets (λ st, room_cleanup (page st));
  match c with
  | Some (s, sel) =>
      socket_emit s (leave_chat (_id sel));;
      modify (with_page (page_room_cleanup None))
  | None => skip
  end.

(* ===================================================================== *)
(** * ChatWindow.jsx *)
(* ===================================================================== *)

Definition setInput (s : string) : M unit :=
  modify (with_window (window_input s)).
Definition setTypingUsers (f : list string → list string) : M unit :=
  modify (with_window (λ w, window_typingUsers (f (typingUsers w)) w)).
Definition setSending (b : bool) : M unit :=
  modify (with_window (window_sending b)).

(** The [user_typing] listener (the [handleTyping] local to the effect),
    closed over [chat] and [currentUser]. *)
Definition typing_update (data : TypingData) (prev : list string) : list string :=
  if is_typing data then
    if includes (user_id data) prev then prev else prev ++ [user_id data]
  else filter (λ id, id ≠ user_id data) prev.

Definition handleTyping_remote (chat : Chat) (currentUser : option User)
    (data : TypingData) : M unit :=
  if decide (typing_chat_id data ≠ _id chat) then skip
  else if decide (Some (user_id data) = user__id <$> currentUser) then skip
  else setTypingUsers (typing_update data).

(** Effect registering the listener, dependencies [[chat, currentUser]]. *)
Definition user_typing_effect : M unit :=
  s ← getSocket;
  chat ← gets (λ st, selectedChat (page st));
  cu ← gets currentUser;
  match s, chat with
  | Some _, Some chat => modify (with_window (window_on_user_typing (Some (chat, cu))))
  | _, _ => skip
  end.

Definition user_typing_cleanup : M unit :=
  modify (with_window (window_on_user_typing None)).

(** Effect with dependencies [[chat]]: [setTypingUsers([])]. *)
Definition reset_typing_effect : M unit := setTypingUsers (λ _, []).

(** The component's own [handleTyping], called on every content change. *)
Definition handleTyping : M unit :=
  s ← getSocket;
  chat ← gets (λ st, selectedChat (page st));
  match s, chat with
  | Some s, Some chat =>
      socket_emit s (typing_start (_id chat));;
      ref ← gets (λ st, typingTimeoutRef (window st));
      match ref with
      | Some id => clearTimeout id
      | None => skip
      end;;
      id ← setTimeout s chat 2000;
      modify (with_window (window_typingTimeoutRef (Some id)))
  | _, _ => skip
  end.

(** [onChange] of the text input. *)
Definition onChange (value : string) : M unit :=
  setInput value;;
  handleTyping.

(** [handleSend] up to its [await], and its continuation, which closes over
    the [chat] of the render that submitted. *)
Definition handleSend : M unit :=
  inp ← gets (λ st, input (window st));
  chat ← gets (λ st, selectedChat (page st));
  busy ← gets (λ st, sending (window st));
  match chat with
  | Some chat =>
      if String.eqb (trim inp) "" || busy then skip
      else
        setSending true;;
        request (sendMessage chat (trim inp))
  | None => skip
  end.

Definition handleSend_resume (chat : Chat) (res : Settled Message) : M unit :=
  try_finally
    (try_catch
       (_ ← await res;
        setInput "";;
        s ← getSocket;
        match s with
        | Some s => socket_emit s (typing_stop (_id chat))
        | None => skip
        end)
       (λ err, console_error "Failed to send message:" err))
    (setSending false).

(* ===================================================================== *)
(** * React commits and the event loop *)
(* ===================================================================== *)

(** State of the page before its first commit: the initial values of the
    [useState] and [useRef] cells, nothing registered, nothing in flight. *)
Definition boot (cookie : option string) (user : option User) : App :=
  mkApp (mkEnv 0 cookie [] 0 0 [] [] None)
        user
        (mkPage [] None [] true None None)
        (mkWindow "" [] false None None).

(** Passive effects of the first commit.  React runs the effects of a child
    before those of its parent, and those of one component in source
    order. *)
Definition mount_effects : M unit :=
  user_typing_effect;;
  reset_typing_effect;;
  connect_effect;;
  new_message_effect;;
  room_effect.

(** Passive effects of a commit in which [selectedChat] is a different
    object than in the previous render: first the clean-ups of the effects
    that depend on it, then their bodies, children first in both phases. *)
Definition selection_effects : M unit :=
  user_typing_cleanup;;
  new_message_cleanup;;
  room_effect_cleanup;;
  user_typing_effect;;
  reset_typing_effect;;
  new_message_effect;;
  room_effect.

(** A timer that has come due: the clock stands at its due time, the timer
    leaves the table and its callback runs. *)
Definition fire (t : Timer) : M unit :=
  modify (with_env (λ v,
    env_now (now v `max` due t)
      (env_timers (filter (λ t', timer_id t' ≠ timer_id t) (timers v)) v)));;
  socket_emit (cb_socket t) (typing_stop (_id (cb_chat t))).

Fixpoint for_each {A} (f : A → M unit) (l : list A) : M unit :=
  match l with
  | [] => skip
  | x :: l' => f x;; for_each f l'
  end.

(** [ms] milliseconds pass: the timers due by then fire, oldest first.  A
    timer runs when the clock reaches its due time; the delay a browser may
    add on top is not represented. *)
Definition elapse (ms : nat) : M unit :=
  deadline ← gets (λ st, now (env st) + ms);
  ts ← gets (λ st, timers (env st));
  for_each fire (filter (λ t, due t ≤ deadline) ts);;
  modify (with_env (env_now deadline)).

Fixpoint remove_first (r : Request) (l : list Request) : list Request :=
  match l with
  | [] => []
  | x :: l' => if decide (x = r) then l' else x :: remove_first r l'
  end.

(** Resume the continuation [k] of the request [r] when [r] is in flight;
    a settlement of a request that is not in flight cannot occur and is
    ignored. *)
Definition settle (r : Request) (k : M unit) : M unit :=
  rs ← gets (λ st, requests (env st));
  if decide (r ∈ rs) then
    modify (with_env (env_requests (remove_first r rs)));;
    k
  else skip.

(** What can happen to a mounted page. *)
Inductive Event :=
| SelectChat (chat : Chat)        (* [onSelectChat(chat)], [chat] not the selected object *)
| ReselectChat                    (* [onSelectChat] with the very object selected *)
| ChatCreated (newChat : Chat)    (* [onChatCreated(newChat)] *)
| ChatsFetched (res : Settled (option (list Chat)))
| MessagesFetched (chatId : string) (res : Settled (option (list Message)))
| NewMessage (msg : Message)      (* server signal [new_message] *)
| UserTyping (data : TypingData)  (* server signal [user_typing] *)
| InputChange (value : string)    (* [onChange] of the text input *)
| SubmitForm                      (* [onSubmit] of the form *)
| MessageSent (chat : Chat) (body : string) (res : Settled Message)
| Elapse (ms : nat).

Definition handle (ev : Event) : M unit :=
  match ev with
  | SelectChat chat =>
      handleSelectChat chat;;
      selection_effects
  | ReselectChat =>
      sel ← gets (λ st, selectedChat (page st));
      match sel with
      | Some chat => handleSelectChat chat
      | None => skip
      end
  | ChatCreated newChat =>
      handleChatCreated newChat;;
      selection_effects
  | ChatsFetched res => settle getChats (fetchChats_resume res)
  | MessagesFetched chatId res =>
      settle (getMessages chatId) (fetchMessages_resume chatId res)
  | NewMessage msg =>
      h ← gets (λ st, on_new_message (page st));
      match h with
      | Some sel => handleNewMessage sel msg
      | None => skip
      end
  | UserTyping data =>
      h ← gets (λ st, on_user_typing (window st));
      match h with
      | Some (chat, cu) => handleTyping_remote chat cu data
      | None => skip
      end
  | InputChange value => onChange value
  | SubmitForm => handleSend
  | MessageSent chat body res =>
      settle (sendMessage chat body) (handleSend_resume chat res)
  | Elapse ms => elapse ms
  end.

Definition step (st : App) (ev : Event) : App := exec (handle ev) st.

Definition run (st : App) (evs : list Event) : App := foldl step st evs.

(** The page after its first commit. *)
Definition mount (cookie : option string) (user : option User) : App :=
  exec mount_effects (boot cookie user).

(* ===================================================================== *)
(** * Vocabulary of the properties *)
(* ===================================================================== *)

(** ** Reading the trace *)

Definition signal_of (e : nat * Effect) : option Signal :=
  match e with
  | (_, emit _ sig) => Some sig
  | _ => None
  end.

(** The signals emitted so far, oldest first. *)
Definition signals (st : App) : list Signal :=
  omap signal_of (trace (env st)).

(** ** The scenario of the specification: its users, conversations and
    messages, and the page after its first commit with a token present *)

Module Scenario.
Definition alice := mkUser "alice".
Definition chat1 := mkChat "1" (Some "General") "group" ["alice"; "bob"] None None.
Definition chat2 := mkChat "2" None "direct" ["alice"; "carol"] None None.
Definition m1 := mkMessage "m1" "1" "bob" (Some "hi") "2024-01-01T10:00:00Z".
Definition m2 := mkMessage "m2" "1" "bob" (Some "yo") "2024-01-01T10:00:05Z".
Definition page0 := mount (Some "jwt") (Some alice).
End Scenario.

(** ** Message merger *)

(** The registered [new_message] listener is the one of the current
    render: it closes over the current selection. *)
Definition listener_current (st : App) : Prop :=
  on_new_message (page st)
  = match socket (env st) with
    | Some _ => Some (selectedChat (page st))
    | None => None
    end.

(** ** Room subscription *)

(** The rooms the server has this connection in after a signal sequence:
    [join_chat] enters a room, [leave_chat] leaves it. *)
Definition room_step (rooms : list string) (sig : Signal) : list string :=
  match sig with
  | join_chat x => if decide (x ∈ rooms) then rooms else rooms ++ [x]
  | leave_chat x => filter (λ r, r ≠ x) rooms
  | _ => rooms
  end.

Definition rooms (sigs : list Signal) : list string := foldl room_step [] sigs.

(** The conversation of the most recent [join_chat]. *)
Definition last_join_step (acc : option string) (sig : Signal) : option string :=
  match sig with
  | join_chat x => Some x
  | _ => acc
  end.

Definition last_join (sigs : list Signal) : option string :=
  foldl last_join_step None sigs.

(** At every instant (after every prefix of the signal sequence) at most
    one room is joined. *)
Definition single_subscription (sigs : list Signal) : Prop :=
  ∀ p, p `prefix_of` sigs → length (rooms p) ≤ 1.

(** Every [join_chat] that follows an earlier join comes immediately after
    the [leave_chat] of the conversation joined before. *)
Definition leave_before_join (sigs : list Signal) : Prop :=
  ∀ pre x post y,
    sigs = pre ++ join_chat x :: post →
    last_join pre = Some y →
    ∃ pre', pre = pre' ++ [leave_chat y].

(** Where a signal sequence stands: nothing joined yet, conversation [y]
    joined, or [y] just left (the leave is the last signal). *)
Inductive Subscription :=
| Never
| Joined (y : string)
| Left (y : string).

Definition tracks (sigs : list Signal) (sub : Subscription) : Prop :=
  match sub with
  | Never => rooms sigs = [] ∧ last_join sigs = None
  | Joined y => rooms sigs = [y] ∧ last_join sigs = Some y
  | Left y =>
      rooms sigs = [] ∧ last_join sigs = Some y
      ∧ last sigs = Some (leave_chat y)
  end.

Definition well_subscribed (sigs : list Signal) (sub : Subscription) : Prop :=
  tracks sigs sub ∧ single_subscription sigs ∧ leave_before_join sigs.

(** How one more signal moves the subscription. *)
Definition sub_step (sub : Subscription) (sig : Signal) : option Subscription :=
  match sig, sub with
  | join_chat x, Never => Some (Joined x)
  | join_chat x, Left _ => Some (Joined x)
  | leave_chat x, Joined y => if decide (x = y) then Some (Left y) else None
  | typing_start _, Never | typing_stop _, Never => Some Never
  | typing_start _, Joined y | typing_stop _, Joined y => Some (Joined y)
  | _, _ => None
  end.

(** The subscription the page believes it has: the room of the pending
    clean-up of the join effect. *)
Definition subscription_of (st : App) : Subscription :=
  match room_cleanup (page st) with
  | Some (_, c) => Joined (_id c)
  | None => Never
  end.

Definition subscribed (st : App) : Prop :=
  well_subscribed (signals st) (subscription_of st)
  ∧ (is_Some (room_cleanup (page st)) → is_Some (socket (env st))).

(** ** Local typing debounce *)

(** The state after the callback of [t] has run. *)
Definition fired (t : Timer) (st : App) : App :=
  with_env (λ v,
    env_trace (trace v ++ [(now v `max` due t,
                            emit (cb_socket t) (typing_stop (_id (cb_chat t))))])
      (env_now (now v `max` due t)
         (env_timers (filter (λ t', timer_id t' ≠ timer_id t) (timers v)) v))) st.

(** Times at which a [typing_stop] for conversation [c] was emitted. *)
Definition stop_time (c : string) (e : nat * Effect) : option nat :=
  match e with
  | (t, emit _ (typing_stop x)) => if decide (x = c) then Some t else None
  | _ => None
  end.

Definition typing_stops (c : string) (tr : list (nat * Effect)) : list nat :=
  omap (stop_time c) tr.

(** Events after which the idle timer is left to run: anything but a
    content change or a send that succeeds. *)
Definition quiet (ev : Event) : bool :=
  match ev with
  | InputChange _ => false
  | MessageSent _ _ (Resolved _) => false
  | _ => true
  end.

(** The timer table holds nothing but the timer [typingTimeoutRef] names. *)
Definition timer_tracked (st : App) : Prop :=
  ∀ t, t ∈ timers (env st) →
       typingTimeoutRef (window st) = Some (timer_id t).

(** After the last content change armed the timer [t]: either [t] is
    pending and its due time lies ahead, or the clock has passed its due
    time and [t] has fired, once, at that time. *)
Definition expiring (t : Timer) (stops0 : list nat) (st : App) : Prop :=
  (timers (env st) = [t]
   ∧ now (env st) < due t
   ∧ typing_stops (_id (cb_chat t)) (trace (env st)) = stops0)
  ∨ (timers (env st) = []
     ∧ due t ≤ now (env st)
     ∧ typing_stops (_id (cb_chat t)) (trace (env st)) = stops0 ++ [due t]).

(* ===================================================================== *)
(** * Rendering and bookkeeping read by the further properties *)
(* ===================================================================== *)

(** [ChatWindow.jsx], the send button: [disabled={!input.trim() || sending}]. *)
Definition send_disabled (st : App) : bool :=
  String.eqb (trim (input (window st))) "" || sending (window st).

Definition is_send (r : Request) : bool :=
  match r with
  | sendMessage _ _ => true
  | _ => false
  end.

Definition is_history (r : Request) : bool :=
  match r with
  | getMessages _ => true
  | _ => false
  end.

Definition is_list_fetch (r : Request) : bool :=
  match r with
  | getChats => true
  | _ => false
  end.

(** The requests in flight of one kind. *)
Definition in_flight (kind : Request → bool) (st : App) : list Request :=
  filter (λ r, kind r = true) (requests (env st)).

(** A page that has no connection and has never had one: nothing is
    registered, emitted or armed, no history is requested and none shown. *)
Definition offline (st : App) : Prop :=
  socket (env st) = None
  ∧ omap signal_of (trace (env st)) = []
  ∧ timers (env st) = []
  ∧ Forall (λ r, is_history r = false) (requests (env st))
  ∧ on_new_message (page st) = None
  ∧ on_user_typing (window st) = None
  ∧ room_cleanup (page st) = None
  ∧ messages (page st) = []
  ∧ typingUsers (window st) = [].

(** The two flags of the page count the requests they stand for. *)
Definition flags_count (st : App) : Prop :=
  length (in_flight is_list_fetch st)
  = (if loadingChats (page st) then 1 else 0)
  ∧ length (in_flight is_send st)
    = (if sending (window st) then 1 else 0).

(** What the three effects keyed on the selection have installed is what
    the current render installs: the [new_message] listener, the
    [user_typing] listener and the leave clean-up. *)
Definition effects_current (st : App) : Prop :=
  on_new_message (page st)
  = match socket (env st) with
    | Some _ => Some (selectedChat (page st))
    | None => None
    end
  ∧ on_user_typing (window st)
    = match socket (env st), selectedChat (page st) with
      | Some _, Some c => Some (c, currentUser st)
      | _, _ => None
      end
  ∧ room_cleanup (page st)
    = match socket (env st), selectedChat (page st) with
      | Some s, Some c => Some (s, c)
      | _, _ => None
      end.

(** The user's own id is not in the remote typing set. *)
Definition self_absent (st : App) : Prop :=
  ∀ u, currentUser st = Some u → user__id u ∉ typingUsers (window st).

(** At most one idle timer is pending; it is the one [typingTimeoutRef]
    names and it comes due within the idle window. *)
Definition one_timer (st : App) : Prop :=
  timers (env st) = []
  ∨ ∃ t, timers (env st) = [t]
         ∧ typingTimeoutRef (window st) = Some (timer_id t)
         ∧ now (env st) < due t ≤ now (env st) + 2000.

(** The idle timer [t] is the only one that can be pending, and no
    typing-stop for conversation [a] has been emitted beyond [stops0]. *)
Definition dropped (a : string) (t : Timer) (stops0 : list nat) (st : App) : Prop :=
  (timers (env st) = [t] ∨ timers (env st) = [])
  ∧ typing_stops a (trace (env st)) = stops0.

(* ===================================================================== *)
(** * The session around the page *)
(* ===================================================================== *)

(** The page lives in a session: cookies hold the tokens ([utils/token.js]),
    every request passes the two axios interceptors ([api/axios.js]), the
    auth context holds the signed-in user ([context/AuthContext.jsx]), the
    route guards decide what is rendered ([App.jsx]), the sidebar searches
    users and creates conversations ([components/Sidebar.jsx]) and the
    login page signs in or registers ([pages/Login.jsx]). *)

(** ** Effects with a state of any type and errors of any type *)

Inductive Outcome (E A : Type) :=
| Done (a : A)
| Raised (e : E).
Arguments Done {E A} a.
Arguments Raised {E A} e.

Definition Eff (E S A : Type) : Type := S → Outcome E A * S.

#[global] Instance Eff_ret {E S} : MRet (Eff E S) := λ A a s, (Done a, s).
#[global] Instance Eff_bind {E S} : MBind (Eff E S) := λ A B k m s,
  match m s with
  | (Done a, s') => k a s'
  | (Raised e, s') => (Raised e, s')
  end.

Definition reads {E S A} (f : S → A) : Eff E S A := λ s, (Done (f s), s).
Definition update {E S} (f : S → S) : Eff E S unit := λ s, (Done tt, f s).
Definition raise {E S A} (e : E) : Eff E S A := λ s, (Raised e, s).
Definition pass {E S} : Eff E S unit := mret tt.

(** [try { body } catch (e) { handler }] *)
Definition catching {E S A} (body : Eff E S A) (handler : E → Eff E S A) :
    Eff E S A := λ s,
  match body s with
  | (Done a, s') => (Done a, s')
  | (Raised e, s') => handler e s'
  end.

(** [try { body } finally { final }] *)
Definition finally {E S A} (body : Eff E S A) (final : Eff E S unit) :
    Eff E S A := λ s,
  match body s with
  | (r, s') =>
      match final s' with
      | (Done _, s'') => (r, s'')
      | (Raised e, s'') => (Raised e, s'')
      end
  end.

(** Run an effect of a part of the state on the whole state. *)
Definition within {E S T A} (get : T → S) (set : S → T → T)
    (m : Eff E S A) : Eff E T A := λ t,
  match m (get t) with
  | (r, s') => (r, set s' t)
  end.

(** How a request settles, before the response interceptor has seen it. *)
Inductive Response (E A : Type) :=
| Fulfilled (a : A)
| Failed (e : E).
Arguments Fulfilled {E A} a.
Arguments Failed {E A} e.

(** ** The browser: clock, cookies, location *)

(** A cookie as js-cookie writes it: a value and the time it expires. *)
Record Cookie := mkCookie {
  cookie_value : string;
  cookie_expires : N;
}.

Record Browser := mkBrowser {
  clock : N;                            (* ms *)
  jar : list (string * Cookie);
  location : string;                    (* path of the location bar *)
}.

(** One day in milliseconds, the unit of js-cookie's [expires]. *)
Definition day : N := 86400000.

Fixpoint assoc {A} (name : string) (l : list (string * A)) : option A :=
  match l with
  | [] => None
  | (n, a) :: l' => if decide (n = name) then Some a else assoc name l'
  end.

(** [Cookies.get(name)]: the browser does not show an expired cookie; a
    cookie is expired once the clock has reached its expiry. *)
Definition Cookies_get (name : string) (b : Browser) : option string :=
  match assoc name (jar b) with
  | Some c => if decide (clock b < cookie_expires c)%N
              then Some (cookie_value c) else None
  | None => None
  end.

(** [new Date(ms).toUTCString()]: a date to the second. *)
Definition toUTCString (ms : N) : N := (ms / 1000 * 1000)%N.

(** [Cookies.set(name, value, { expires: days })] replaces the cookie of
    that name; js-cookie writes the expiry as
    [new Date(Date.now() + days * 864e5).toUTCString()]. *)
Definition Cookies_set (name value : string) (days : N) (b : Browser) : Browser :=
  mkBrowser (clock b)
    ((name, mkCookie value (toUTCString (clock b + days * day)))
       :: filter (λ e, e.1 ≠ name) (jar b))
    (location b).

(** [Cookies.remove(name)] *)
Definition Cookies_remove (name : string) (b : Browser) : Browser :=
  mkBrowser (clock b) (filter (λ e, e.1 ≠ name) (jar b)) (location b).

(** [window.location.href = path], [navigate(path)]: the address changes;
    the reload the browser performs after the former is not represented. *)
Definition go (path : string) (b : Browser) : Browser :=
  mkBrowser (clock b) (jar b) path.

(** Time passes. *)
Definition later (ms : N) (b : Browser) : Browser :=
  mkBrowser (clock b + ms)%N (jar b) (location b).

(** ** utils/token.js *)

Module Token.

Definition ACCESS_KEY : string := "chatsphere_access_token".
Definition REFRESH_KEY : string := "chatsphere_refresh_token".

Definition getAccessToken (b : Browser) : option string :=
  Cookies_get ACCESS_KEY b.

Definition getRefreshToken (b : Browser) : option string :=
  Cookies_get REFRESH_KEY b.

Definition setTokens (accessToken refreshToken : string) (b : Browser) : Browser :=
  Cookies_set REFRESH_KEY refreshToken 7
    (Cookies_set ACCESS_KEY accessToken 1 b).

Definition removeTokens (b : Browser) : Browser :=
  Cookies_remove REFRESH_KEY (Cookies_remove ACCESS_KEY b).

End Token.

(** ** api/axios.js *)

(** The [detail] field of an error response body, as [Login.jsx] reads
    it: a string, an object with an optional [message], or anything
    else (absent included). *)
Inductive Detail :=
| detail_string (s : string)
| detail_object (message : option string)
| detail_other.

(** A rejected request: [status] is [error.response.status], absent when
    no response was received. *)
Record HttpError := mkHttpError {
  status : option nat;
  detail : Detail;
}.

Module Axios.

(** Request interceptor: [config.headers.Authorization = `Bearer ${token}`]
    when a token is present and not empty. *)
Definition request_interceptor (b : Browser)
    (headers : list (string * string)) : list (string * string) :=
  match Token.getAccessToken b with
  | Some token =>
      if truthy (Some token)
      then ("Authorization", "Bearer " +:+ token)
             :: filter (λ h, h.1 ≠ "Authorization") headers
      else headers
  | None => headers
  end.

(** [axios.create({ headers: { "Content-Type": "application/json" } })] *)
Definition default_headers : list (string * string) :=
  [("Content-Type", "application/json")].

(** The headers a request leaves with. *)
Definition outgoing_headers (b : Browser) : list (string * string) :=
  request_interceptor b default_headers.

(** Response interceptor, error side: on a 401 remove the tokens and send
    the browser to [/login]; reject with the same error in every case. *)
Definition response_interceptor {A} (error : HttpError) : Eff HttpError Browser A :=
  match status error with
  | Some code =>
      if decide (code = 401)
      then update Token.removeTokens;; update (go "/login")
      else pass
  | None => pass
  end;;
  raise error.

(** [await api.get(...)], [await api.post(...)] for a request that settles
    as [res]. *)
Definition awaiting {A} (res : Response HttpError A) : Eff HttpError Browser A :=
  match res with
  | Fulfilled a => mret a
  | Failed error => response_interceptor error
  end.

End Axios.

(** ** context/AuthContext.jsx *)

Module Auth.

Record State := mkState {
  browser : Browser;
  user : option User;
  loading : bool;
}.

(** Body of [res.data] for [login] and [register]. *)
Record Tokens := mkTokens {
  access_token : string;
  refresh_token : string;
  user_data : User;
}.

Definition with_browser (f : Browser → Browser) (a : State) : State :=
  mkState (f (browser a)) (user a) (loading a).
Definition setUser (u : option User) : Eff HttpError State unit :=
  update (λ a, mkState (browser a) u (loading a)).
Definition setLoading (l : bool) : Eff HttpError State unit :=
  update (λ a, mkState (browser a) (user a) l).
Definition in_browser {A} (m : Eff HttpError Browser A) : Eff HttpError State A :=
  within browser (λ b a, mkState b (user a) (loading a)) m.

(** The provider before its first commit. *)
Definition initial (b : Browser) : State := mkState b None true.

(** [hydrate] up to its [await]: returns whether [getMe] was requested. *)
Definition hydrate : Eff HttpError State bool :=
  token ← reads (λ a, Token.getAccessToken (browser a));
  if truthy token then mret true
  else setLoading false;; mret false.

(** [hydrate] from its [await] on. *)
Definition hydrate_resume (res : Response HttpError User) :
    Eff HttpError State unit :=
  finally
    (catching
       (data ← in_browser (Axios.awaiting res);
        setUser (Some data))
       (λ _, update (with_browser Token.removeTokens)))
    (setLoading false).

(** [login] and [register] from their [await] on; neither catches. *)
Definition login_resume (res : Response HttpError Tokens) :
    Eff HttpError State User :=
  data ← in_browser (Axios.awaiting res);
  update (with_browser (Token.setTokens (access_token data) (refresh_token data)));;
  setUser (Some (user_data data));;
  mret (user_data data).

Definition register_resume (res : Response HttpError Tokens) :
    Eff HttpError State User :=
  data ← in_browser (Axios.awaiting res);
  update (with_browser (Token.setTokens (access_token data) (refresh_token data)));;
  setUser (Some (user_data data));;
  mret (user_data data).

Definition logout : Eff HttpError State unit :=
  update (with_browser Token.removeTokens);;
  setUser None.

End Auth.

(** ** App.jsx *)

Module Router.

(** What a route element renders. *)
Inductive View :=
| LoadingScreen
| LoginPage
| ChatPage
| Navigate (to : string).

(** Which entry of the route table the router matched. *)
Inductive Matched :=
| root          (* path="/" *)
| login         (* path="/login" *)
| chat          (* path="/chat" *)
| anything.     (* path="*" *)

Definition ProtectedRoute (a : Auth.State) (children : View) : View :=
  if Auth.loading a then LoadingScreen
  else match Auth.user a with
       | Some _ => children
       | None => Navigate "/login"
       end.

Definition PublicRoute (a : Auth.State) (children : View) : View :=
  if Auth.loading a then LoadingScreen
  else match Auth.user a with
       | Some _ => Navigate "/chat"
       | None => children
       end.

Definition App (m : Matched) (a : Auth.State) : View :=
  match m with
  | root => Navigate "/chat"
  | login => PublicRoute a LoginPage
  | chat => ProtectedRoute a ChatPage
  | anything => Navigate "/chat"
  end.

(** The entry the router matches for the paths the code navigates to. *)
Definition matching (path : string) : Matched :=
  if String.eqb path "/" then root
  else if String.eqb path "/login" then login
  else if String.eqb path "/chat" then chat
  else anything.

(** Render, following [Navigate] at most [fuel] times. *)
Fixpoint settle (fuel : nat) (m : Matched) (a : Auth.State) : option View :=
  match App m a with
  | Navigate to =>
      match fuel with
      | 0 => None
      | S fuel' => settle fuel' (matching to) a
      end
  | v => Some v
  end.

End Router.

(** ** components/Sidebar.jsx *)

Module Sidebar.

(** A user as the search returns it. *)
Record Hit := mkHit {
  hit_id : string;
  username : option string;
  is_online : bool;
}.

(** Requests the sidebar issues. *)
Inductive Call :=
| searchUsers (query : string)
| createChat (chat_type : string) (participant_ids : list string).

(** The three [useState] cells and the requests issued so far. *)
Record State := mkState {
  searchQuery : string;
  searchResults : list Hit;
  searching : bool;
  calls : list Call;
}.

Definition setSearchQuery {E} (q : string) : Eff E State unit :=
  update (λ s, mkState q (searchResults s) (searching s) (calls s)).
Definition setSearchResults {E} (r : list Hit) : Eff E State unit :=
  update (λ s, mkState (searchQuery s) r (searching s) (calls s)).
Definition setSearching {E} (b : bool) : Eff E State unit :=
  update (λ s, mkState (searchQuery s) (searchResults s) b (calls s)).
Definition call {E} (c : Call) : Eff E State unit :=
  update (λ s, mkState (searchQuery s) (searchResults s) (searching s)
                       (calls s ++ [c])).

(** [await p] for a request of the page's API that settles as [p]. *)
Definition awaited {S A} (p : Settled A) : Eff string S A :=
  match p with
  | Resolved a => mret a
  | Rejected err => raise err
  end.

(** [handleSearch] up to its [await]. *)
Definition handleSearch (q : string) : Eff string State unit :=
  setSearchQuery q;;
  if decide (String.length q < 2) then setSearchResults []
  else
    setSearching true;;
    call (searchUsers q).

(** [handleSearch] from its [await] on; [res] is the [users] field of the
    response body. *)
Definition handleSearch_resume (res : Settled (option (list Hit))) :
    Eff string State unit :=
  finally
    (catching
       (users ← awaited res;
        setSearchResults (or_else users []))
       (λ _, setSearchResults []))
    (setSearching false).

(** The sidebar together with the page it is rendered in. *)
Definition in_sidebar {A} (m : Eff string State A) : Eff string (State * App) A :=
  within fst (λ s p, (s, p.2)) m.

(** A handler of the page, run from the sidebar. *)
Definition in_page {A} (m : M A) : Eff string (State * App) A := λ p,
  match m p.2 with
  | (Normal a, app) => (Done a, (p.1, app))
  | (Throw err, app) => (Raised err, (p.1, app))
  end.

(** [startChat(targetUserId)] up to its [await]. *)
Definition startChat (targetUserId : string) : Eff string State unit :=
  call (createChat "direct" [targetUserId]).

(** [startChat] from its [await] on.  [onChatCreated] is the page's
    [handleChatCreated], with the commit it causes. *)
Definition startChat_resume (res : Settled Chat) : Eff string (State * App) unit :=
  catching
    (data ← awaited res;
     in_page (handle (ChatCreated data));;
     in_sidebar (setSearchQuery "");;
     in_sidebar (setSearchResults []))
    (λ err, in_page (console_error "Failed to create chat:" err)).

(** The results panel is rendered when [searchQuery.length >= 2]. *)
Definition results_shown (s : State) : bool :=
  Nat.leb 2 (String.length (searchQuery s)).

End Sidebar.

(** ** pages/Login.jsx *)

Module Login.

Record Form := mkForm {
  email : string;
  username : string;
  password : string;
  confirmPassword : string;
}.

Record State := mkState {
  auth : Auth.State;
  isRegister : bool;
  form : Form;
  error : string;
  loading : bool;
}.

(** What a submit has requested. *)
Inductive Submitted :=
| nothing
| registering (username email password : string)
| logging_in (email password : string).

Definition setError (e : string) : Eff HttpError State unit :=
  update (λ s, mkState (auth s) (isRegister s) (form s) e (loading s)).
Definition setLoading (l : bool) : Eff HttpError State unit :=
  update (λ s, mkState (auth s) (isRegister s) (form s) (error s) l).
Definition in_auth {A} (m : Eff HttpError Auth.State A) : Eff HttpError State A :=
  within auth (λ a s, mkState a (isRegister s) (form s) (error s) (loading s)) m.

(** [navigate(path)] *)
Definition navigate (path : string) : Eff HttpError State unit :=
  in_auth (update (Auth.with_browser (go path))).

(** [handleSubmit] up to its [await]. *)
Definition handleSubmit : Eff HttpError State Submitted :=
  setError "";;
  r ← reads isRegister;
  f ← reads form;
  if r && negb (String.eqb (password f) (confirmPassword f)) then
    setError "Passwords do not match";;
    mret nothing
  else
    setLoading true;;
    mret (if r then registering (username f) (email f) (password f)
          else logging_in (email f) (password f)).

(** [err.response?.data?.detail] *)
Definition detail_of (err : HttpError) : Detail :=
  match status err with
  | Some _ => detail err
  | None => detail_other
  end.

Definition GENERIC : string := "Something went wrong. Please try again.".

(** The [catch] block of [handleSubmit]. *)
Definition report (err : HttpError) : Eff HttpError State unit :=
  match detail_of err with
  | detail_string s => setError s
  | detail_object message =>
      if truthy message then setError (default "" message)
      else setError GENERIC
  | detail_other => setError GENERIC
  end.

(** [handleSubmit] from its [await] on; [register_mode] is the
    [isRegister] of the render that submitted. *)
Definition handleSubmit_resume (register_mode : bool)
    (res : Response HttpError Auth.Tokens) : Eff HttpError State unit :=
  finally
    (catching
       ((if register_mode
         then in_auth (Auth.register_resume res)
         else in_auth (Auth.login_resume res));;
        navigate "/chat")
       report)
    (setLoading false).

End Login.

(* ===================================================================== *)
(** * Proof support *)
(* ===================================================================== *)

Create HintDb monad discriminated.
#[global] Hint Unfold mbind M_bind mret M_ret gets modify skip throw try_catch
  try_finally await exec log socket_emit console_error request setTimeout
  clearTimeout getSocket : monad.

Create HintDb handlers discriminated.
#[global] Hint Unfold step handle settle elapse
  handleSelectChat handleChatCreated handleNewMessage handleTyping_remote
  handleTyping handleSend handleSend_resume onChange
  fetchChats fetchChats_resume fetchMessages fetchMessages_resume
  selection_effects mount_effects connect_effect
  new_message_effect new_message_cleanup room_effect room_effect_cleanup
  user_typing_effect user_typing_cleanup reset_typing_effect
  setChats setSelectedChat setMessages setLoadingChats getAccessToken
  setInput setTypingUsers setSending connectSocket disconnectSocket io : handlers.

(** Unfold a handler down to the state it computes. *)
Ltac unfold_handler := autounfold with handlers; autounfold with monad; cbn.

(** Name every cell of the application state. *)
Ltac destruct_app st :=
  destruct st as [[tnow tcookie ttimers tmade smade treqs ttrace tsock] tuser
                  [tchats tsel tmsgs tloading tonm troom]
                  [tinput ttyping tsending tref tout]].

(** Case analysis on whatever a handler branches on. *)
Ltac crunch_step :=
  match goal with
  | |- context [match ?x with _ => _ end] => is_var x; destruct x
  | |- context [decide ?P] => destruct (decide P)
  | |- context [truthy ?x] => destruct (truthy x)
  | |- context [(?a =? ?b)%string] => destruct (a =? b)%string
  end.
Ltac crunch := cbn; repeat (crunch_step; cbn).

(** ** Timers coming due *)

Lemma fire_eq (t : Timer) (st : App) : fire t st = (Normal tt, fired t st).
Proof. reflexivity. Qed.

(** Firing timers touches the clock, the timer table and the trace only,
    and emits one [typing_stop] per timer. *)
Lemma for_each_fire_frame (l : list Timer) (st : App) :
  ∃ e', for_each fire l st
        = (Normal tt, mkApp e' (currentUser st) (page st) (window st))
    ∧ socket e' = socket (env st)
    ∧ requests e' = requests (env st)
    ∧ cookie e' = cookie (env st)
    ∧ omap signal_of (trace e') =
        omap signal_of (trace (env st))
        ++ ((λ t, typing_stop (_id (cb_chat t))) <$> l).
Proof.
  revert st. induction l as [|t l IH]; intros st.
  - exists (env st). destruct st. cbn. by rewrite app_nil_r.
  - cbn [for_each]. unfold mbind, M_bind. rewrite fire_eq.
    destruct (IH (fired t st)) as (e' & -> & ? & ? & ? & Hs).
    exists e'. cbn in *. repeat split; try done.
    rewrite Hs, omap_app. cbn. by rewrite <- app_assoc.
Qed.

(** No handler lets an exception escape to the event loop. *)
Lemma handle_completes (ev : Event) (st : App) : fst (handle ev st) = Normal tt.
Proof.
  destruct ev; unfold_handler.
  11: {
    match goal with
    | |- context [for_each fire ?l ?s] =>
        destruct (for_each_fire_frame l s) as (e' & -> & _)
    end.
    done. }
  all: destruct_app st; try destruct res; crunch; done.
Qed.

(** ** [slice] *)

Lemma substring_prefix (n : nat) (s : string) :
  String.length (String.substring 0 n s) = String.length s `min` n
  ∧ ∃ rest, s = String.substring 0 n s +:+ rest.
Proof.
  revert n. induction s as [|c s IH]; intros n.
  - destruct n; cbn; split; try done; by exists "".
  - destruct n as [|n]; cbn.
    + split; [done|]. by eexists.
    + destruct (IH n) as [Hl [rest Hr]]. split; [by rewrite Hl|].
      exists rest. rewrite Hr at 1. reflexivity.
Qed.

(* ===================================================================== *)
(** * Connection manager ([socket.js]) *)
(* ===================================================================== *)

(** C7. Connect idempotence: whatever credential is passed, when a
    connection exists [connectSocket] returns it and changes nothing (the
    stored socket, its credential and the trace are as before); when none
    exists it opens exactly one connection authenticated with the given
    credential, stores it and returns it.  Hence a second call, with any
    credential, returns the first call's connection and changes nothing. *)
Theorem connectSocket_idempotent (token token' : string) (st : App) :
  match socket (env st) with
  | Some s => connectSocket token st = (Normal s, st)
  | None =>
      ∃ s0 s,
        connectSocket token st
        = (Normal s,
           with_env (λ v,
             env_socket (Some s)
               (env_trace (trace v ++ [(now v, io_open s0)])
                  (env_sockets_made (S (sockets_made v)) v))) st)
        ∧ s = socket_on "disconnect"
                (socket_on "connect_error" (socket_on "connect" s0))
        ∧ auth_token s0 = token
        ∧ auth_token s = token
        ∧ sock_no s = S (sockets_made (env st))
  end
  ∧ connectSocket token' (exec (connectSocket token) st)
    = (fst (connectSocket token st), exec (connectSocket token) st).
Proof.
  destruct_app st. destruct tsock as [s|]; unfold_handler.
  - done.
  - split; [|done]. do 2 eexists. split; [reflexivity|]. done.
Qed.

(** C8. Idempotent teardown: [disconnectSocket] leaves the handle null;
    with an active connection it disconnects that socket and does nothing
    else, with none it does nothing at all; so a second call in succession
    changes nothing, neither the state nor the trace. *)
Theorem disconnectSocket_idempotent (st : App) :
  socket (env (exec disconnectSocket st)) = None
  ∧ match socket (env st) with
    | Some s =>
        disconnectSocket st
        = (Normal tt,
           with_env (λ v,
             env_socket None
               (env_trace (trace v ++ [(now v, io_disconnect s)]) v)) st)
    | None => disconnectSocket st = (Normal tt, st)
    end
  ∧ disconnectSocket (exec disconnectSocket st)
    = (Normal tt, exec disconnectSocket st).
Proof.
  destruct_app st. destruct tsock as [s|]; unfold_handler; done.
Qed.

(* ===================================================================== *)
(** * Reachable states *)
(* ===================================================================== *)

(** A property of the state that every event preserves holds along every
    run. *)
Lemma run_invariant (P : App → Prop) :
  (∀ st ev, P st → P (step st ev)) →
  ∀ evs st, P st → P (run st evs).
Proof.
  intros Hstep evs. induction evs as [|ev evs IH]; intros st HP; [done|].
  cbn. apply IH, Hstep, HP.
Qed.

(** Expose the state after [Elapse] through [for_each_fire_frame]. *)
Ltac elapse_frame :=
  match goal with
  | |- context [for_each fire ?l ?s] =>
      let e' := fresh "e'" in
      let Hsock := fresh "Hsock" in
      let Hreq := fresh "Hreq" in
      let Hcookie := fresh "Hcookie" in
      let Hsig := fresh "Hsig" in
      destruct (for_each_fire_frame l s)
        as (e' & -> & Hsock & Hreq & Hcookie & Hsig);
      cbn in *
  end.

(** The handle of [socket.js] is only assigned while mounting. *)
Lemma step_socket (st : App) (ev : Event) :
  socket (env (step st ev)) = socket (env st).
Proof.
  destruct ev; unfold_handler.
  11: { elapse_frame. done. }
  all: destruct_app st; try destruct res; crunch; done.
Qed.

Lemma listener_current_mount (cookie : option string) (user : option User) :
  listener_current (mount cookie user).
Proof.
  unfold listener_current, mount, boot. unfold_handler.
  destruct cookie as [t|]; cbn; [|done].
  destruct (t =? "")%string; cbn; done.
Qed.

Lemma listener_current_step (st : App) (ev : Event) :
  listener_current st → listener_current (step st ev).
Proof.
  unfold listener_current.
  destruct ev; unfold_handler.
  11: { elapse_frame. intros ->. by rewrite Hsock. }
  all: destruct_app st; try destruct res; crunch; intros; simplify_eq; done.
Qed.

Lemma listener_current_run cookie user evs :
  listener_current (run (mount cookie user) evs).
Proof.
  apply run_invariant; [apply listener_current_step|].
  apply listener_current_mount.
Qed.

(* ===================================================================== *)
(** * Message merger ([Chat.jsx]) *)
(* ===================================================================== *)

(** C1, as stated, fails on the code.  Conversation 1 is selected and its
    history [[m1]] has been loaded; the push event for [m1] arrives (the
    race between a fetch and an event).  The message list becomes
    [[m1; m1]]: the handler appends without looking at identifiers. *)
Lemma idempotent_merge_counterexample :
  let st := run Scenario.page0
              [SelectChat Scenario.chat1;
               MessagesFetched "1" (Resolved (Some [Scenario.m1]))] in
  selectedChat (page st) = Some Scenario.chat1
  ∧ chat_id Scenario.m1 = _id Scenario.chat1
  ∧ messages (page st) = [Scenario.m1]
  ∧ messages (page (step st (NewMessage Scenario.m1)))
    = [Scenario.m1; Scenario.m1]
  ∧ messages (page (step st (NewMessage Scenario.m1))) ≠ messages (page st).
Proof. vm_compute. repeat split; congruence. Qed.

(** C1, amended.  For every message list and every inbound push message
    whose conversation id equals the current selection, handling the push
    event appends the message at the end of the list, whether or not a
    message with the same identifier is already present.  The first
    hypothesis says that the registered listener is the one of the current
    render, as it is in every state a connected page reaches
    ([listener_current_run]). *)
Theorem push_message_appended (st : App) (sel : Chat) (msg : Message) :
  on_new_message (page st) = Some (selectedChat (page st)) →
  selectedChat (page st) = Some sel →
  chat_id msg = _id sel →
  messages (page (step st (NewMessage msg))) = messages (page st) ++ [msg].
Proof.
  destruct_app st. cbn. intros -> -> Hid.
  unfold_handler. destruct (decide (chat_id msg = _id sel)); done.
Qed.

(** The amended C1 on the scenario: with [[m1]] shown for conversation 1,
    the push of [m2] gives [[m1; m2]]. *)
Lemma push_message_appended_witness :
  let st := run Scenario.page0
              [SelectChat Scenario.chat1;
               MessagesFetched "1" (Resolved (Some [Scenario.m1]))] in
  messages (page (step st (NewMessage Scenario.m2)))
  = messages (page st) ++ [Scenario.m2].
Proof.
  apply (push_message_appended _ Scenario.chat1 Scenario.m2); reflexivity.
Defined.

(** C2, as stated, fails on the code.  Conversation A is selected, then
    conversation B before A's history has arrived.  The list shown for B is
    empty; when A's fetch resolves with [[mA]] the list becomes [[mA]],
    a message of conversation A, while B is still the selection. *)
Lemma stale_fetch_counterexample :
  let chatA := mkChat "A" None "direct" [] None None in
  let chatB := mkChat "B" None "direct" [] None None in
  let mA := mkMessage "a1" "A" "bob" (Some "old") "2024-01-01T10:00:00Z" in
  let st := run Scenario.page0 [SelectChat chatA; SelectChat chatB] in
  let st' := step st (MessagesFetched "A" (Resolved (Some [mA]))) in
  selectedChat (page st) = Some chatB
  ∧ requests (env st) = [getChats; getMessages "A"; getMessages "B"]
  ∧ messages (page st) = []
  ∧ selectedChat (page st') = Some chatB
  ∧ messages (page st') = [mA]
  ∧ messages (page st') ≠ messages (page st).
Proof. vm_compute. repeat split; congruence. Qed.

(** C2, amended.  A history fetch that resolves is applied without
    comparing its conversation id with the selection: for every state and
    every fetch in flight, its completion replaces the displayed message
    list with the fetched messages (the empty list when the response has
    none) and leaves the selection as it is; so it is applied when its id
    equals the current selection, and also when the selection has moved
    on. *)
Theorem fetch_result_applied (st : App) (chatId : string)
    (res : option (list Message)) :
  getMessages chatId ∈ requests (env st) →
  let st' := step st (MessagesFetched chatId (Resolved res)) in
  messages (page st') = or_else res []
  ∧ selectedChat (page st') = selectedChat (page st)
  ∧ requests (env st') = remove_first (getMessages chatId) (requests (env st)).
Proof.
  intros Hin. destruct_app st. cbn in Hin. unfold_handler.
  destruct (decide (getMessages chatId ∈ treqs)); done.
Qed.

(** The amended C2 when the result is the current selection's: B's history
    replaces the list while B is selected. *)
Lemma fetch_result_applied_witness :
  let chatA := mkChat "A" None "direct" [] None None in
  let chatB := mkChat "B" None "direct" [] None None in
  let mB := mkMessage "b1" "B" "bob" (Some "new") "2024-01-01T10:00:00Z" in
  let st := run Scenario.page0 [SelectChat chatA; SelectChat chatB] in
  let st' := step st (MessagesFetched "B" (Resolved (Some [mB]))) in
  getMessages "B" ∈ requests (env st)
  ∧ messages (page st') = [mB]
  ∧ selectedChat (page st') = Some chatB.
Proof.
  intros chatA chatB mB st.
  assert (Hin : getMessages "B" ∈ requests (env st))
    by (apply (bool_decide_unpack _); vm_compute; exact I).
  split; [exact Hin|].
  destruct (fetch_result_applied st "B" (Some [mB]) Hin) as (Hm & Hs & _).
  split; [exact Hm|]. rewrite Hs. reflexivity.
Defined.

(** C9, as stated, fails on the code.  Conversation 1 is open with its
    history [[m1]]; a conversation is created and becomes the selection
    ([handleChatCreated] does not clear the list); its history fetch
    fails.  The error is absorbed, but the view is not empty: it still
    shows [[m1]], now under conversation 2. *)
Lemma fetch_error_counterexample :
  let st := run Scenario.page0
              [SelectChat Scenario.chat1;
               MessagesFetched "1" (Resolved (Some [Scenario.m1]));
               ChatCreated Scenario.chat2] in
  let st' := step st (MessagesFetched "2" (Rejected "Network Error")) in
  getMessages "2" ∈ requests (env st)
  ∧ selectedChat (page st') = Some Scenario.chat2
  ∧ messages (page st') = [Scenario.m1]
  ∧ messages (page st') ≠ [].
Proof.
  split; [apply (bool_decide_unpack _); vm_compute; exact I|].
  vm_compute. repeat split; congruence.
Qed.

(** C9, amended.  For every failing history or conversation-list fetch,
    the operation completes without throwing to its caller: the error is
    absorbed and reported on the console.  The affected list is left
    exactly as it was before the failure (an empty list stays empty, a
    non-empty one is kept); nothing else on the page changes, except that
    the failed list fetch clears the loading flag. *)
Theorem fetch_error_absorbed (st : App) (chatId err : string) :
  let history := MessagesFetched chatId (Rejected err) in
  let list := ChatsFetched (Rejected err) in
  fst (handle history st) = Normal tt
  ∧ fst (handle list st) = Normal tt
  ∧ messages (page (step st history)) = messages (page st)
  ∧ chats (page (step st history)) = chats (page st)
  ∧ messages (page (step st list)) = messages (page st)
  ∧ chats (page (step st list)) = chats (page st)
  ∧ (getMessages chatId ∈ requests (env st) →
     page (step st history) = page st
     ∧ trace (env (step st history))
       = trace (env st)
         ++ [(now (env st), error_logged "Failed to load messages:" err)])
  ∧ (getChats ∈ requests (env st) →
     page (step st list) = page_loadingChats false (page st)
     ∧ trace (env (step st list))
       = trace (env st)
         ++ [(now (env st), error_logged "Failed to load chats:" err)]).
Proof.
  destruct_app st. unfold_handler.
  destruct (decide (getMessages chatId ∈ treqs)),
           (decide (getChats ∈ treqs)); cbn; done.
Qed.

(** The amended C9 on a first load: both fetches fail, both lists were
    empty and stay empty. *)
Lemma fetch_error_absorbed_witness :
  let st := run Scenario.page0 [SelectChat Scenario.chat1] in
  let history := MessagesFetched "1" (Rejected "Network Error") in
  let list := ChatsFetched (Rejected "Network Error") in
  (getMessages "1" ∈ requests (env st) ∧ getChats ∈ requests (env st))
  ∧ fst (handle history st) = Normal tt
  ∧ messages (page (step st history)) = []
  ∧ fst (handle list st) = Normal tt
  ∧ page (step st list) = page_loadingChats false (page st).
Proof.
  intros st history list.
  assert (Hm : getMessages "1" ∈ requests (env st))
    by (apply (bool_decide_unpack _); vm_compute; exact I).
  assert (Hc : getChats ∈ requests (env st))
    by (apply (bool_decide_unpack _); vm_compute; exact I).
  split; [by split|].
  destruct (fetch_error_absorbed st "1" "Network Error")
    as (H1 & H2 & _ & _ & _ & _ & Hhist & Hlist).
  destruct (Hhist Hm) as [Hpage _]. destruct (Hlist Hc) as [Hpage' _].
  split; [exact H1|]. split; [subst history; rewrite Hpage; reflexivity|].
  split; [exact H2|]. exact Hpage'.
Defined.

(* ===================================================================== *)
(** * Conversation list projector ([Chat.jsx]) *)
(* ===================================================================== *)

(** C6. Selection-independent projection: whatever selection the listener
    closes over, handling a push message maps the conversation list through
    [project]: the list keeps its length and the order of its ids; every
    entry with the message's conversation id gets the first 60 characters
    of the content as preview and the message's creation time as
    last-activity time, its other fields unchanged; every other entry is
    unchanged. *)
Theorem projection_selection_independent (st : App) (sel : option Chat)
    (msg : Message) :
  on_new_message (page st) = Some sel →
  let before := chats (page st) in
  let after := chats (page (step st (NewMessage msg))) in
  after = project msg <$> before
  ∧ length after = length before
  ∧ _id <$> after = _id <$> before
  ∧ (∀ i c, before !! i = Some c → _id c = chat_id msg →
       after !! i
       = Some (mkChat (_id c) (name c) (chat_type c) (participants c)
                      (slice 0 60 <$> content msg) (Some (created_at msg))))
  ∧ (∀ i c, before !! i = Some c → _id c ≠ chat_id msg → after !! i = Some c)
  ∧ (∀ s, String.length (slice 0 60 s) = String.length s `min` 60
          ∧ ∃ rest, s = slice 0 60 s +:+ rest).
Proof.
  intros Hreg before after.
  assert (Hafter : after = project msg <$> before).
  { subst before after. destruct_app st. cbn in Hreg. subst tonm.
    unfold_handler. destruct sel as [c|]; [|done].
    destruct (decide (chat_id msg = _id c)); done. }
  split; [exact Hafter|]. rewrite Hafter.
  split; [by rewrite length_fmap|].
  split.
  { rewrite <- list_fmap_compose. apply list_fmap_ext. intros _ c _.
    cbn. unfold project. by destruct (decide (_id c = chat_id msg)). }
  split.
  { intros i c Hi Hid. rewrite list_lookup_fmap, Hi. cbn.
    unfold project. by destruct (decide (_id c = chat_id msg)). }
  split.
  { intros i c Hi Hid. rewrite list_lookup_fmap, Hi. cbn.
    unfold project. by destruct (decide (_id c = chat_id msg)). }
  intros s. apply substring_prefix.
Qed.

(** C6 on the scenario: a push for conversation 1 updates its summary
    while conversation 2 is selected. *)
Lemma projection_selection_independent_witness :
  let chat1' := mkChat "1" (Some "General") "group" ["alice"; "bob"]
                       (Some "yo") (Some "2024-01-01T10:00:05Z") in
  let st := run Scenario.page0
              [ChatsFetched (Resolved (Some [Scenario.chat1; Scenario.chat2]));
               SelectChat Scenario.chat2] in
  on_new_message (page st) = Some (Some Scenario.chat2)
  ∧ chats (page (step st (NewMessage Scenario.m2))) = [chat1'; Scenario.chat2].
Proof.
  intros chat1' st.
  assert (Hreg : on_new_message (page st) = Some (Some Scenario.chat2))
    by reflexivity.
  split; [exact Hreg|].
  destruct (projection_selection_independent st _ Scenario.m2 Hreg) as [-> _].
  reflexivity.
Defined.

(* ===================================================================== *)
(** * Remote typing set ([ChatWindow.jsx]) *)
(* ===================================================================== *)

Lemma typing_update_NoDup (data : TypingData) (prev : list string) :
  NoDup prev → NoDup (typing_update data prev).
Proof.
  intros Hnd. unfold typing_update, includes.
  destruct (is_typing data).
  - case_bool_decide as Hin; [done|].
    apply list.NoDup_app. split; [done|]. split; [|apply list.NoDup_singleton].
    intros x Hx ->%list_elem_of_singleton. done.
  - by apply list.NoDup_filter.
Qed.

Lemma typing_update_present (data : TypingData) (prev : list string) :
  is_typing data = true → user_id data ∈ prev → typing_update data prev = prev.
Proof.
  intros Ht Hin. unfold typing_update, includes. rewrite Ht.
  by rewrite bool_decide_eq_true_2.
Qed.

Lemma filter_absent (x : string) (l : list string) :
  x ∉ l → filter (λ id, id ≠ x) l = l.
Proof.
  induction l as [|y l IH]; intros Hx; [done|].
  apply not_elem_of_cons in Hx as [Hne Hx].
  rewrite filter_cons_True by done. by rewrite IH.
Qed.

Lemma typing_update_stop (data : TypingData) (prev : list string) :
  is_typing data = false →
  (user_id data ∉ typing_update data prev)
  ∧ (user_id data ∉ prev → typing_update data prev = prev).
Proof.
  intros Ht. unfold typing_update. rewrite Ht. split.
  - intros [Hne _]%list_elem_of_filter. done.
  - apply filter_absent.
Qed.

(** A stop removes that user and nobody else: the others stay, in the
    order they had. *)
Lemma typing_update_stop_keeps (data : TypingData) (prev : list string) :
  is_typing data = false →
  typing_update data prev = filter (λ id, id ≠ user_id data) prev
  ∧ (∀ id, id ∈ typing_update data prev ↔ id ∈ prev ∧ id ≠ user_id data)
  ∧ typing_update data prev `sublist_of` prev.
Proof.
  intros Ht. unfold typing_update. rewrite Ht.
  split; [done|]. split.
  - intros id. rewrite list_elem_of_filter. tauto.
  - apply sublist_filter.
Qed.

(** A start for a user who is absent puts them at the end. *)
Lemma typing_update_absent (data : TypingData) (prev : list string) :
  is_typing data = true → user_id data ∉ prev →
  typing_update data prev = prev ++ [user_id data].
Proof.
  intros Ht Hin. unfold typing_update, includes. rewrite Ht.
  by rewrite bool_decide_eq_false_2.
Qed.

(** Every event leaves the set alone, empties it, or applies one typing
    update to it. *)
Lemma step_typingUsers (st : App) (ev : Event) :
  typingUsers (window (step st ev)) = typingUsers (window st)
  ∨ typingUsers (window (step st ev)) = []
  ∨ ∃ data,
      typingUsers (window (step st ev))
      = typing_update data (typingUsers (window st)).
Proof.
  destruct ev; unfold_handler.
  11: { left. elapse_frame. done. }
  all: destruct_app st; try destruct res; crunch; eauto.
Qed.

Lemma mount_typingUsers (cookie : option string) (user : option User) :
  typingUsers (window (mount cookie user)) = [].
Proof.
  unfold mount, boot. unfold_handler.
  destruct cookie as [t|]; cbn; [|done].
  destruct (t =? "")%string; cbn; done.
Qed.

Lemma step_typingUsers_NoDup (st : App) (ev : Event) :
  NoDup (typingUsers (window st)) → NoDup (typingUsers (window (step st ev))).
Proof.
  intros Hnd. destruct (step_typingUsers st ev) as [->|[->|[data ->]]].
  - done.
  - constructor.
  - by apply typing_update_NoDup.
Qed.

(** C10. The remote typing set has no duplicates: along every sequence of
    events from the first commit the displayed set never holds a user id
    twice.  The invariant is preserved by every event, in particular by
    every typing update and by the reset of a selection change, which
    empties the set.  A [user_typing] signal that passes the listener's
    guards applies [typing_update]: with [is_typing = true] for a user
    already present the set is unchanged, and for a user who is absent the
    user is added at the end; with [is_typing = false] the user is removed,
    and the set is unchanged when the user was absent.  Removing takes out
    that user and nobody else: the new set is the old one without the
    user's id, so every other user stays, in the order they had. *)
Theorem typing_set_no_duplicates (cookie : option string)
    (user : option User) (evs : list Event) (st : App) (ev : Event)
    (chat sel : Chat) (cu : option User) (data : TypingData)
    (prev : list string) :
  NoDup (typingUsers (window (run (mount cookie user) evs)))
  ∧ (NoDup (typingUsers (window st)) →
     NoDup (typingUsers (window (step st ev))))
  ∧ (NoDup prev → NoDup (typing_update data prev))
  ∧ typingUsers (window (step st (SelectChat sel))) = []
  ∧ (on_user_typing (window st) = Some (chat, cu) →
     typing_chat_id data = _id chat →
     Some (user_id data) ≠ user__id <$> cu →
     typingUsers (window (step st (UserTyping data)))
     = typing_update data (typingUsers (window st)))
  ∧ (is_typing data = true → user_id data ∈ prev →
     typing_update data prev = prev)
  ∧ (is_typing data = false →
     (user_id data ∉ typing_update data prev)
     ∧ (user_id data ∉ prev → typing_update data prev = prev))
  ∧ (is_typing data = false →
     typing_update data prev = filter (λ id, id ≠ user_id data) prev
     ∧ (∀ id, id ∈ typing_update data prev ↔ id ∈ prev ∧ id ≠ user_id data)
     ∧ typing_update data prev `sublist_of` prev)
  ∧ (is_typing data = true → user_id data ∉ prev →
     typing_update data prev = prev ++ [user_id data]).
Proof.
  split.
  { apply run_invariant; [apply step_typingUsers_NoDup|].
    rewrite mount_typingUsers. constructor. }
  split; [apply step_typingUsers_NoDup|].
  split; [apply typing_update_NoDup|].
  split.
  { destruct_app st. unfold_handler. crunch; done. }
  split.
  { intros Hreg Hchat Hself. destruct_app st. cbn in Hreg. subst tout.
    unfold_handler.
    destruct (decide (typing_chat_id data ≠ _id chat)); [done|].
    destruct (decide (Some (user_id data) = user__id <$> cu)); done. }
  split; [apply typing_update_present|].
  split; [apply typing_update_stop|].
  split; [apply typing_update_stop_keeps|apply typing_update_absent].
Qed.

(** C10 on the scenario: bob's typing signal twice leaves one entry; a
    stop for an absent user changes nothing; a stop for bob between carol
    and dave removes bob and keeps carol and dave in their order; a start
    for dave, absent, puts dave at the end; and on the page, carol and bob
    typing and then bob stopping leaves carol. *)
Lemma typing_set_no_duplicates_witness :
  let st := run Scenario.page0 [SelectChat Scenario.chat1] in
  let bob_on := mkTypingData "1" "bob" true in
  let bob_off := mkTypingData "1" "bob" false in
  let carol_on := mkTypingData "1" "carol" true in
  let dave_on := mkTypingData "1" "dave" true in
  typingUsers (window (run st [UserTyping bob_on; UserTyping bob_on])) = ["bob"]
  ∧ typing_update bob_on ["bob"] = ["bob"]
  ∧ typing_update bob_off ["carol"] = ["carol"]
  ∧ typing_update bob_off ["carol"; "bob"; "dave"] = ["carol"; "dave"]
  ∧ typing_update dave_on ["carol"; "bob"] = ["carol"; "bob"; "dave"]
  ∧ typingUsers (window (run st [UserTyping carol_on; UserTyping bob_on;
                                 UserTyping bob_off])) = ["carol"].
Proof.
  intros st bob_on bob_off carol_on dave_on.
  pose proof (typing_set_no_duplicates (Some "jwt") (Some Scenario.alice) []
                (step st (UserTyping bob_on)) (UserTyping bob_on)
                Scenario.chat1 Scenario.chat1 (Some Scenario.alice)
                bob_on ["bob"]) as (_ & _ & _ & _ & Hstep & Hon & _).
  pose proof (typing_set_no_duplicates (Some "jwt") (Some Scenario.alice) []
                st (UserTyping bob_off)
                Scenario.chat1 Scenario.chat1 (Some Scenario.alice)
                bob_off ["carol"]) as (_ & _ & _ & _ & _ & _ & Hoff & _).
  pose proof (typing_set_no_duplicates (Some "jwt") (Some Scenario.alice) []
                (step (step st (UserTyping carol_on)) (UserTyping bob_on))
                (UserTyping bob_off)
                Scenario.chat1 Scenario.chat1 (Some Scenario.alice)
                bob_off ["carol"; "bob"; "dave"])
    as (_ & _ & _ & _ & Hstep3 & _ & _ & Hkeep & _).
  pose proof (typing_set_no_duplicates (Some "jwt") (Some Scenario.alice) []
                st (UserTyping dave_on)
                Scenario.chat1 Scenario.chat1 (Some Scenario.alice)
                dave_on ["carol"; "bob"]) as (_ & _ & _ & _ & _ & _ & _ & _ & Hadd).
  split.
  { change (run st [UserTyping bob_on; UserTyping bob_on])
      with (step (step st (UserTyping bob_on)) (UserTyping bob_on)).
    rewrite Hstep; [|reflexivity|reflexivity|discriminate].
    apply Hon; [reflexivity|]. apply list_elem_of_singleton. reflexivity. }
  split.
  { apply Hon; [reflexivity|]. apply list_elem_of_singleton. reflexivity. }
  split.
  { destruct (Hoff eq_refl) as [_ Habs]. apply Habs.
    intros Hin%list_elem_of_singleton. discriminate. }
  split.
  { destruct (Hkeep eq_refl) as (-> & _). vm_compute. reflexivity. }
  split.
  { apply Hadd; [reflexivity|].
    apply (bool_decide_unpack _). vm_compute. exact I. }
  change (run st [UserTyping carol_on; UserTyping bob_on; UserTyping bob_off])
    with (step (step (step st (UserTyping carol_on)) (UserTyping bob_on))
            (UserTyping bob_off)).
  rewrite Hstep3; [|vm_compute; reflexivity|reflexivity|discriminate].
  vm_compute. reflexivity.
Defined.

(* ===================================================================== *)
(** * Room subscription ([Chat.jsx], third effect) *)
(* ===================================================================== *)

Lemma rooms_snoc (sigs : list Signal) (sig : Signal) :
  rooms (sigs ++ [sig]) = room_step (rooms sigs) sig.
Proof. unfold rooms. by rewrite foldl_app. Qed.

Lemma last_join_snoc (sigs : list Signal) (sig : Signal) :
  last_join (sigs ++ [sig]) = last_join_step (last_join sigs) sig.
Proof. unfold last_join. by rewrite foldl_app. Qed.

Lemma prefix_snoc_cases {A} (p l : list A) (x : A) :
  p `prefix_of` l ++ [x] → p `prefix_of` l ∨ p = l ++ [x].
Proof.
  intros [k Hk]. destruct k as [|z k _] using rev_ind.
  - right. by rewrite app_nil_r in Hk.
  - left. rewrite app_assoc in Hk. apply app_inj_tail in Hk as [-> _].
    by exists k.
Qed.

Lemma snoc_split_cases {A} (l pre post : list A) (e x : A) :
  l ++ [e] = pre ++ x :: post →
  (post = [] ∧ l = pre ∧ e = x) ∨ (∃ post', post = post' ++ [e] ∧ l = pre ++ x :: post').
Proof.
  intros H. destruct post as [|z post _] using rev_ind.
  - left. apply app_inj_tail in H as [-> ->]. done.
  - right. exists post.
    change (pre ++ x :: post ++ [z]) with (pre ++ (x :: post) ++ [z]) in H.
    rewrite app_assoc in H. apply app_inj_tail in H as [-> ->]. done.
Qed.

Lemma tracks_step (sigs : list Signal) (sub sub' : Subscription) (sig : Signal) :
  tracks sigs sub → sub_step sub sig = Some sub' → tracks (sigs ++ [sig]) sub'.
Proof.
  unfold tracks. intros Ht Hs.
  destruct sig, sub; cbn in Hs; try case_decide; simplify_eq;
    rewrite rooms_snoc, last_join_snoc; cbn; try done.
  - destruct Ht as [-> _]. done.
  - destruct Ht as (-> & _). done.
  - destruct Ht as [-> Hl]. rewrite last_snoc.
    rewrite filter_cons_False by (intros ?; done). done.
Qed.

Lemma rooms_bounded (sigs : list Signal) (sub : Subscription) :
  tracks sigs sub → length (rooms sigs) ≤ 1.
Proof. destruct sub; cbn; intros [-> _]; cbn; lia. Qed.

Lemma well_subscribed_step (sigs : list Signal) (sub sub' : Subscription)
    (sig : Signal) :
  well_subscribed sigs sub → sub_step sub sig = Some sub' →
  well_subscribed (sigs ++ [sig]) sub'.
Proof.
  intros (Ht & Hone & Hlbj) Hs.
  assert (Ht' := tracks_step _ _ _ _ Ht Hs).
  split; [exact Ht'|]. split.
  - intros p [Hp | ->]%prefix_snoc_cases; [by apply Hone|].
    by eapply rooms_bounded.
  - intros pre x post y
      [(-> & <- & ->) | (post' & -> & ->)]%snoc_split_cases Hy.
    + destruct sub; cbn in Hs; simplify_eq.
      * destruct Ht as [_ Hn]. congruence.
      * destruct Ht as (_ & Hl & Hlast). simplify_eq.
        by apply last_Some.
    + by eapply Hlbj.
Qed.

Lemma well_subscribed_nil : well_subscribed [] Never.
Proof.
  split; [done|]. split.
  - intros p ->%prefix_nil_inv. cbn. lia.
  - intros pre x post y H. by destruct pre.
Qed.

(** Typing stops, as timers emit them, do not move the subscription. *)
Lemma well_subscribed_stops (l : list Timer) (sigs : list Signal)
    (sub : Subscription) :
  (sub = Never ∨ ∃ y, sub = Joined y) →
  well_subscribed sigs sub →
  well_subscribed (sigs ++ ((λ t, typing_stop (_id (cb_chat t))) <$> l)) sub.
Proof.
  intros Hsub. revert sigs. induction l as [|t l IH]; intros sigs Hw.
  - by rewrite app_nil_r.
  - cbn. rewrite cons_middle, app_assoc. apply IH.
    eapply well_subscribed_step; [exact Hw|].
    destruct Hsub as [->|[y ->]]; done.
Qed.

Lemma subscribed_mount (cookie : option string) (user : option User) :
  subscribed (mount cookie user).
Proof.
  assert (signals (mount cookie user) = []
          ∧ room_cleanup (page (mount cookie user)) = None) as [Hs Hr].
  { unfold signals, mount, boot. unfold_handler.
    destruct cookie as [t|]; cbn; [|done].
    destruct (t =? "")%string; cbn; done. }
  unfold subscribed, subscription_of. rewrite Hs, Hr.
  split; [apply well_subscribed_nil|]. by intros [? ?].
Qed.

(** Extend a tracked signal sequence by the signals a handler emitted. *)
Ltac sub_solve :=
  first
    [ eassumption
    | eapply well_subscribed_step;
      [ sub_solve | cbn; rewrite ?decide_True by done; reflexivity ] ].

Lemma subscribed_step (st : App) (ev : Event) :
  subscribed st → subscribed (step st ev).
Proof.
  unfold subscribed, subscription_of, signals.
  destruct ev; unfold_handler.
  11: {
    elapse_frame. intros [Hw Hs]. rewrite Hsig, Hsock. split; [|done].
    apply well_subscribed_stops; [|done].
    destruct (room_cleanup (page st)) as [[]|]; eauto. }
  all: destruct_app st; try destruct res; crunch; intros [Hw Hs].
  all: try (exfalso; destruct Hs as [? [=]]; by eauto).
  all: split; [|by eauto].
  all: rewrite ?omap_app; cbn; rewrite ?app_nil_r; sub_solve.
Qed.

Lemma subscribed_run (cookie : option string) (user : option User)
    (evs : list Event) :
  subscribed (run (mount cookie user) evs).
Proof.
  apply run_invariant; [apply subscribed_step|apply subscribed_mount].
Qed.

(** C3. Single subscription with leave-before-join ordering: along every
    sequence of events from the first commit, and so along every sequence
    of select operations, at most one room is joined at any instant, and
    every [join_chat] that follows an earlier join comes immediately after
    the [leave_chat] of the conversation joined before.  A select emits, in
    this order, the leave of the joined conversation (when one is joined)
    and the join of the new one (when the page is connected). *)
Theorem single_subscription_leave_before_join (cookie : option string)
    (user : option User) (evs : list Event) (st : App) (chat : Chat) :
  single_subscription (signals (run (mount cookie user) evs))
  ∧ leave_before_join (signals (run (mount cookie user) evs))
  ∧ signals (step st (SelectChat chat))
    = signals st
      ++ match room_cleanup (page st) with
         | Some (_, old) => [leave_chat (_id old)]
         | None => []
         end
      ++ match socket (env st) with
         | Some _ => [join_chat (_id chat)]
         | None => []
         end.
Proof.
  destruct (subscribed_run cookie user evs) as [(_ & Hone & Hlbj) _].
  split; [exact Hone|]. split; [exact Hlbj|].
  unfold signals. destruct_app st. unfold_handler. crunch.
  all: rewrite ?omap_app; cbn; rewrite <- ?app_assoc, ?app_nil_r; done.
Qed.

(** The definitions discriminate: two joins in a row break both
    properties, and the scenario of the specification has the expected
    signals. *)
Example two_joins_not_single :
  ¬ single_subscription [join_chat "1"; join_chat "2"].
Proof.
  intros H.
  assert (Hlen : length (rooms [join_chat "1"; join_chat "2"]) ≤ 1)
    by (apply H; by exists []).
  vm_compute in Hlen. lia.
Qed.

Example join_after_typing_not_ordered :
  ¬ leave_before_join [join_chat "1"; typing_start "1"; join_chat "2"].
Proof.
  intros H.
  destruct (H [join_chat "1"; typing_start "1"] "2" [] "1" eq_refl eq_refl)
    as [pre' Hpre].
  change [join_chat "1"; typing_start "1"]
    with ([join_chat "1"] ++ [typing_start "1"]) in Hpre.
  apply app_inj_tail in Hpre as [_ [=]].
Qed.

Example scenario_signals :
  signals (run Scenario.page0
             [SelectChat Scenario.chat1;
              MessagesFetched "1" (Resolved (Some [Scenario.m1]));
              NewMessage Scenario.m2;
              SelectChat Scenario.chat2])
  = [join_chat "1"; leave_chat "1"; join_chat "2"].
Proof. reflexivity. Qed.

(* ===================================================================== *)
(** * Local typing debounce ([ChatWindow.jsx]) *)
(* ===================================================================== *)

Lemma filter_all_out (id : nat) (l : list Timer) :
  (∀ t, t ∈ l → timer_id t = id) → filter (λ t, timer_id t ≠ id) l = [].
Proof.
  induction l as [|t l IH]; intros H; [done|].
  rewrite filter_cons_False.
  - apply IH. intros t' Ht'. apply H. by right.
  - intros Hne. apply Hne, H. by left.
Qed.

Lemma timer_tracked_mount (cookie : option string) (user : option User) :
  timer_tracked (mount cookie user).
Proof.
  assert (timers (env (mount cookie user)) = []) as Ht.
  { unfold mount, boot. unfold_handler.
    destruct cookie as [t|]; cbn; [|done].
    destruct (t =? "")%string; cbn; done. }
  intros t. rewrite Ht. by intros ?%elem_of_nil.
Qed.

Lemma for_each_fire_timers (l : list Timer) (st : App) :
  ∀ t, t ∈ timers (env (snd (for_each fire l st))) → t ∈ timers (env st).
Proof.
  revert st. induction l as [|t' l IH]; intros st t; [done|].
  cbn [for_each]. unfold mbind, M_bind. rewrite fire_eq.
  intros Ht%IH. destruct st as [e ? ? ?]. cbn in Ht.
  by apply list_elem_of_filter in Ht as [_ Ht].
Qed.

Lemma timer_tracked_step (st : App) (ev : Event) :
  timer_tracked st → timer_tracked (step st ev).
Proof.
  unfold timer_tracked.
  destruct ev.
  11: {
    intros H t Ht. unfold_handler.
    revert Ht. unfold_handler.
    match goal with
    | |- context [for_each fire ?l ?s] =>
        pose proof (for_each_fire_timers l s t) as Hsub;
        destruct (for_each_fire_frame l s) as (e' & Heq & _)
    end.
    rewrite Heq in *. cbn in *. intros Ht. by apply H, Hsub. }
  all: unfold_handler; destruct_app st; try destruct res; crunch;
    intros H t Ht; try (by apply H).
  - rewrite (filter_all_out n) in Ht.
    + by apply list_elem_of_singleton in Ht as ->.
    + intros t' Ht'. specialize (H t' Ht'). by simplify_eq.
  - destruct ttimers as [|t0 ?].
    + by apply list_elem_of_singleton in Ht as ->.
    + specialize (H t0 (list_elem_of_here _ _)). done.
Qed.

Lemma timer_tracked_run (cookie : option string) (user : option User)
    (evs : list Event) :
  timer_tracked (run (mount cookie user) evs).
Proof.
  apply run_invariant; [apply timer_tracked_step|apply timer_tracked_mount].
Qed.

Lemma expiring_step (t : Timer) (stops0 : list nat) (st : App) (ev : Event) :
  quiet ev = true → expiring t stops0 st → expiring t stops0 (step st ev).
Proof.
  unfold expiring, typing_stops.
  destruct ev; try destruct res; try discriminate; intros _.
  all: destruct_app st; cbn [env timers now trace].
  all: intros [(-> & Hnow & Hstops) | (-> & Hnow & Hstops)].
  all: unfold_handler.
  all: crunch.
  all: rewrite ?omap_app; cbn; rewrite ?app_nil_r.
  all: try (left; split; [done|]; split; [lia|done]).
  all: try (right; split; [done|]; split; [lia|done]).
  unfold fire. unfold_handler. right.
  rewrite omap_app, Hstops. cbn.
  rewrite decide_False by (intros ?; done).
  rewrite decide_True by done. rewrite Nat.max_r by lia.
  split; [done|]. split; [lia|done].
Qed.

Lemma expiring_run (t : Timer) (stops0 : list nat) (evs : list Event) :
  ∀ st, forallb quiet evs = true →
        expiring t stops0 st → expiring t stops0 (run st evs).
Proof.
  induction evs as [|ev evs IH]; intros st Hq He; [done|].
  cbn in Hq. apply andb_prop in Hq as [Hq Hqs].
  cbn. apply IH; [done|]. by apply expiring_step.
Qed.

(** A content change on a connected page with a selection: one
    [typing_start], and the table holds the newly armed timer alone. *)
Lemma onChange_arms (st : App) (s : Socket) (c : Chat) (value : string) :
  timer_tracked st →
  socket (env st) = Some s →
  selectedChat (page st) = Some c →
  let st1 := step st (InputChange value) in
  trace (env st1)
  = trace (env st) ++ [(now (env st), emit s (typing_start (_id c)))]
  ∧ timers (env st1)
    = [mkTimer (S (timers_made (env st))) (now (env st) + 2000) s c]
  ∧ typingTimeoutRef (window st1) = Some (S (timers_made (env st)))
  ∧ now (env st1) = now (env st).
Proof.
  unfold timer_tracked. destruct_app st. cbn. intros Htr -> ->.
  unfold_handler. destruct tref as [id|]; cbn.
  - rewrite (filter_all_out id); [done|].
    intros t Ht. specialize (Htr t Ht). by simplify_eq.
  - destruct ttimers as [|t0 ?]; [done|].
    specialize (Htr t0 (list_elem_of_here _ _)). done.
Qed.

(** C5, as stated, fails on the code, in two ways.  On a page without a
    connection (no token cookie) a content change emits nothing, neither a
    typing-start nor, later, a typing-stop.  On a connected page, a content
    change at time 0 followed by a successful send at time 500 and no
    further content change yields two typing-stops for the conversation,
    one from [handleSend] at 500 and one from the timer, which the send did
    not clear, at 2000. *)
Lemma typing_expiry_counterexample :
  (let st := run (mount None (Some Scenario.alice))
               [SelectChat Scenario.chat1; InputChange "h"; Elapse 2000] in
   selectedChat (page st) = Some Scenario.chat1 ∧ signals st = [])
  ∧ (let st := run Scenario.page0
                 [SelectChat Scenario.chat1; InputChange "h"; Elapse 500;
                  SubmitForm;
                  MessageSent Scenario.chat1 "h" (Resolved Scenario.m1);
                  Elapse 1500] in
     signals st
     = [join_chat "1"; typing_start "1"; typing_stop "1"; typing_stop "1"]
     ∧ typing_stops "1" (trace (env st)) = [500; 2000]).
Proof. vm_compute. done. Qed.

(** C5, amended.  On a connected page with a conversation selected, each
    content change emits a typing-start for that conversation and re-arms
    the single idle timer: afterwards the timer table holds exactly one
    timer, due 2000 ms later.  If then no further content change and no
    successful send occurs, exactly one typing-stop for that conversation
    is emitted, at the end of the 2000 ms window: none before the clock
    reaches it, exactly one from then on. *)
Theorem typing_auto_expiry (cookie : option string) (user : option User)
    (before : list Event) (s : Socket) (c : Chat) (value : string)
    (after : list Event) :
  let st := run (mount cookie user) before in
  let st1 := step st (InputChange value) in
  let st2 := run st1 after in
  let t0 := now (env st) in
  socket (env st) = Some s →
  selectedChat (page st) = Some c →
  forallb quiet after = true →
  signals st1 = signals st ++ [typing_start (_id c)]
  ∧ timers (env st1) = [mkTimer (S (timers_made (env st))) (t0 + 2000) s c]
  ∧ typingTimeoutRef (window st1) = Some (S (timers_made (env st)))
  ∧ typing_stops (_id c) (trace (env st2))
    = typing_stops (_id c) (trace (env st))
      ++ (if decide (t0 + 2000 ≤ now (env st2)) then [t0 + 2000] else []).
Proof.
  intros st st1 st2 t0 Hs Hc Hq.
  destruct (onChange_arms st s c value (timer_tracked_run _ _ _) Hs Hc)
    as (Htrace & Htimers & Href & Hnow).
  fold st1 in Htrace, Htimers, Href, Hnow. fold t0 in Htrace, Htimers.
  split.
  { unfold signals. rewrite Htrace, omap_app. done. }
  split; [exact Htimers|]. split; [exact Href|].
  set (t := mkTimer (S (timers_made (env st))) (t0 + 2000) s c) in *.
  assert (He : expiring t (typing_stops (_id c) (trace (env st))) st1).
  { left. split; [exact Htimers|]. split; [rewrite Hnow; cbn; lia|].
    unfold typing_stops. rewrite Htrace, omap_app. cbn. by rewrite app_nil_r. }
  apply (expiring_run t _ after) in He; [|exact Hq]. fold st2 in He.
  subst t. destruct He as [(_ & Hlt & Hst) | (_ & Hge & Hst)];
    cbn in Hlt || cbn in Hge; cbn in Hst; rewrite Hst.
  - rewrite decide_False by lia. by rewrite app_nil_r.
  - by rewrite decide_True by lia.
Qed.

(** The amended C5 on the scenario: one content change at time 0, then
    only time and a selection change; the single typing-stop comes at
    2000. *)
Lemma typing_auto_expiry_witness :
  let st := run Scenario.page0 [SelectChat Scenario.chat1] in
  let quiet_run := [Elapse 500; SelectChat Scenario.chat2; Elapse 1500] in
  forallb quiet quiet_run = true
  ∧ signals (step st (InputChange "h"))
    = [join_chat "1"; typing_start "1"]
  ∧ typing_stops "1" (trace (env (run (step st (InputChange "h")) quiet_run)))
    = [2000].
Proof.
  intros st quiet_run.
  assert (Hq : forallb quiet quiet_run = true) by reflexivity.
  split; [exact Hq|].
  destruct (typing_auto_expiry (Some "jwt") (Some Scenario.alice)
              [SelectChat Scenario.chat1]
              (socket_on "disconnect"
                 (socket_on "connect_error"
                    (socket_on "connect"
                       (mkSocket 1 SOCKET_URL "/socket.io/" "jwt"
                                 ["websocket"; "polling"] true 5 2000 []))))
              Scenario.chat1 "h" quiet_run eq_refl eq_refl Hq)
    as (Hstart & _ & _ & Hstop).
  split; [exact Hstart|exact Hstop].
Defined.

(** C4, as stated, fails on the code.  Conversation 1 is selected and a
    content change at time 0 arms the idle timer; at time 500 the selection
    moves to conversation 2.  The switch emits the leave and the join and
    no typing-stop, and the timer stays in the table; at time 2000 it fires
    for conversation 1, which is no longer selected. *)
Lemma switch_away_counterexample :
  let st := run Scenario.page0
              [SelectChat Scenario.chat1; InputChange "h"; Elapse 500] in
  let st' := step st (SelectChat Scenario.chat2) in
  let st'' := step st' (Elapse 1500) in
  selectedChat (page st) = Some Scenario.chat1
  ∧ (cb_chat <$> timers (env st)) = [Scenario.chat1]
  ∧ signals st' = signals st ++ [leave_chat "1"; join_chat "2"]
  ∧ timers (env st') = timers (env st)
  ∧ selectedChat (page st'') = Some Scenario.chat2
  ∧ signals st'' = signals st' ++ [typing_stop "1"].
Proof. vm_compute. done. Qed.

(** C4, amended.  For every state in which the typing idle timer is pending
    for the currently selected conversation, switching the selection away
    emits no typing-stop and leaves the timer armed: the timer table and
    [typingTimeoutRef] are unchanged.  When time then passes up to the
    timer's due time, the timer fires and emits the typing-stop for the
    deselected conversation. *)
Theorem switch_leaves_timer_armed (st : App) (chat : Chat) (t : Timer) :
  timers (env st) = [t] →
  selectedChat (page st) = Some (cb_chat t) →
  now (env st) < due t →
  let st' := step st (SelectChat chat) in
  selectedChat (page st') = Some chat
  ∧ timers (env st') = [t]
  ∧ typingTimeoutRef (window st') = typingTimeoutRef (window st)
  ∧ now (env st') = now (env st)
  ∧ (∀ x, typing_stops x (trace (env st')) = typing_stops x (trace (env st)))
  ∧ ∀ ms, due t ≤ now (env st') + ms →
      let st'' := step st' (Elapse ms) in
      selectedChat (page st'') = Some chat
      ∧ timers (env st'') = []
      ∧ trace (env st'')
        = trace (env st')
          ++ [(due t, emit (cb_socket t) (typing_stop (_id (cb_chat t))))].
Proof.
  destruct_app st. cbn. intros -> -> Hnow.
  unfold typing_stops. unfold_handler. crunch.
  all: repeat (split; [done || (intros x; rewrite ?omap_app; cbn;
                                by rewrite ?app_nil_r)|]).
  all: intros ms Hms; cbn in Hms; unfold_handler.
  all: rewrite decide_True by lia; cbn [for_each]; unfold fire; unfold_handler.
  all: rewrite decide_False by (intros ?; done).
  all: rewrite Nat.max_r by lia; done.
Qed.

(** The amended C4 on the scenario: no typing-stop at the switch, one
    from the timer at 2000. *)
Lemma switch_leaves_timer_armed_witness :
  let st := run Scenario.page0
              [SelectChat Scenario.chat1; InputChange "h"; Elapse 500] in
  let st' := step st (SelectChat Scenario.chat2) in
  typing_stops "1" (trace (env st')) = []
  ∧ typing_stops "1" (trace (env (step st' (Elapse 1500)))) = [2000].
Proof.
  intros st st'.
  destruct (switch_leaves_timer_armed st Scenario.chat2
              (mkTimer 1 2000
                 (socket_on "disconnect"
                    (socket_on "connect_error"
                       (socket_on "connect"
                          (mkSocket 1 SOCKET_URL "/socket.io/" "jwt"
                                    ["websocket"; "polling"] true 5 2000 []))))
                 Scenario.chat1)
              eq_refl eq_refl)
    as (_ & _ & _ & _ & Hstops & Hfire); [vm_compute; lia|].
  destruct (Hfire 1500) as (_ & _ & Htrace); [vm_compute; lia|].
  unfold st'. split; [rewrite (Hstops "1"); reflexivity|].
  unfold typing_stops at 1. rewrite Htrace, omap_app.
  change (omap (stop_time "1")
            (trace (env (step st (SelectChat Scenario.chat2)))))
    with (typing_stops "1"
            (trace (env (step st (SelectChat Scenario.chat2))))).
  rewrite (Hstops "1"). reflexivity.
Defined.

(* ===================================================================== *)
(** * Further properties of the page ([Chat.jsx]) *)
(* ===================================================================== *)

(** X1. First commit: the page opens a socket exactly when the access-token
    cookie is present and not empty, authenticated with that token, and
    registers the [new_message] listener on it; the conversation list is
    requested in either case, and nothing is selected, shown or emitted. *)
Theorem mount_connects_with_token (cookie : option string) (user : option User) :
  let st := mount cookie user in
  requests (env st) = [getChats]
  ∧ page st = mkPage [] None [] true (on_new_message (page st)) None
  ∧ window st = mkWindow "" [] false None None
  ∧ currentUser st = user
  ∧ signals st = []
  ∧ if truthy cookie
    then ∃ t s, cookie = Some t
                ∧ socket (env st) = Some s
                ∧ auth_token s = t
                ∧ on_new_message (page st) = Some None
                ∧ ∃ s0, trace (env st) = [(0, io_open s0)] ∧ auth_token s0 = t
    else socket (env st) = None
         ∧ on_new_message (page st) = None
         ∧ trace (env st) = [].
Proof.
  unfold mount, boot, signals. unfold_handler.
  destruct cookie as [t|]; cbn; [|done].
  destruct (t =? "")%string; cbn; [done|].
  repeat split. do 2 eexists. repeat split. by eexists.
Qed.

Lemma remove_first_elem (r x : Request) (l : list Request) :
  x ∈ remove_first r l → x ∈ l.
Proof.
  induction l as [|y l IH]; cbn; [done|].
  destruct (decide (y = r)); [by right|].
  intros [->|Hx]%elem_of_cons; [by left|]. right. by apply IH.
Qed.

Lemma Forall_remove_first (P : Request → Prop) (r : Request) (l : list Request) :
  Forall P l → Forall P (remove_first r l).
Proof.
  rewrite !Forall_forall. intros H x Hx. by apply H, (remove_first_elem r).
Qed.

Lemma offline_mount (cookie : option string) (user : option User) :
  truthy cookie = false → offline (mount cookie user).
Proof.
  unfold offline, mount, boot. unfold_handler.
  destruct cookie as [t|]; cbn; [|by repeat constructor].
  destruct (t =? "")%string; cbn; [by repeat constructor|done].
Qed.

Lemma offline_step (st : App) (ev : Event) : offline st → offline (step st ev).
Proof.
  unfold offline. destruct_app st. cbn.
  intros (-> & Hsig & -> & Hreq & -> & -> & -> & -> & ->).
  destruct ev; try destruct res; unfold_handler; crunch;
    rewrite ?omap_app, ?Hsig; cbn; repeat split;
    try done; try (by apply Forall_remove_first);
    try (by apply Forall_app; split; [|repeat constructor]).
  all: try (exfalso;
            match goal with
            | H : _ ∈ ?l, F : Forall _ ?l |- _ =>
                rewrite Forall_forall in F; by specialize (F _ H)
            end).
Qed.

(** X2. A page mounted without a usable token stays silent: whatever
    happens afterwards it has no socket, emits no signal, arms no timer,
    registers no listener, requests no history and shows no message (it
    can still select conversations and send). *)
Theorem offline_page_is_silent (cookie : option string) (user : option User)
    (evs : list Event) :
  truthy cookie = false →
  let st := run (mount cookie user) evs in
  socket (env st) = None
  ∧ signals st = []
  ∧ timers (env st) = []
  ∧ (∀ chatId, getMessages chatId ∉ requests (env st))
  ∧ on_new_message (page st) = None
  ∧ on_user_typing (window st) = None
  ∧ messages (page st) = []
  ∧ typingUsers (window st) = [].
Proof.
  intros Hc st.
  assert (Hoff : offline st).
  { apply run_invariant; [apply offline_step|by apply offline_mount]. }
  destruct Hoff as (? & ? & ? & Hreq & ? & ? & ? & ? & ?).
  repeat split; try done.
  intros chatId Hin. rewrite Forall_forall in Hreq. by specialize (Hreq _ Hin).
Qed.

(** X2 on a page without cookie: a selection, a push and a content change
    leave it silent. *)
Lemma offline_page_is_silent_witness :
  let st := run (mount None (Some Scenario.alice))
              [SelectChat Scenario.chat1; NewMessage Scenario.m1;
               InputChange "h"; Elapse 3000] in
  signals st = [] ∧ messages (page st) = []
  ∧ selectedChat (page st) = Some Scenario.chat1.
Proof.
  destruct (offline_page_is_silent None (Some Scenario.alice)
              [SelectChat Scenario.chat1; NewMessage Scenario.m1;
               InputChange "h"; Elapse 3000] eq_refl)
    as (_ & Hsig & _ & _ & _ & _ & Hmsg & _).
  split; [exact Hsig|]. split; [exact Hmsg|vm_compute; reflexivity].
Defined.

(** X3. Selecting a conversation on a connected page clears the message
    list and the remote typing set, requests that conversation's history,
    and re-registers both listeners and the leave clean-up for it.  The
    conversation list, the draft in the input box, the sending flag and
    the idle timer are carried over unchanged. *)
Theorem select_resets_and_fetches (st : App) (s : Socket) (chat : Chat) :
  socket (env st) = Some s →
  let st' := step st (SelectChat chat) in
  selectedChat (page st') = Some chat
  ∧ messages (page st') = []
  ∧ typingUsers (window st') = []
  ∧ requests (env st') = requests (env st) ++ [getMessages (_id chat)]
  ∧ on_new_message (page st') = Some (Some chat)
  ∧ on_user_typing (window st') = Some (chat, currentUser st)
  ∧ room_cleanup (page st') = Some (s, chat)
  ∧ chats (page st') = chats (page st)
  ∧ input (window st') = input (window st)
  ∧ sending (window st') = sending (window st)
  ∧ typingTimeoutRef (window st') = typingTimeoutRef (window st)
  ∧ timers (env st') = timers (env st).
Proof.
  destruct_app st. cbn. intros ->. unfold_handler.
  destruct troom as [[s0 c0]|]; cbn; done.
Qed.

Lemma select_resets_and_fetches_witness :
  let st := run Scenario.page0
              [SelectChat Scenario.chat1;
               MessagesFetched "1" (Resolved (Some [Scenario.m1]));
               InputChange "draft"] in
  let st' := step st (SelectChat Scenario.chat2) in
  messages (page st) = [Scenario.m1]
  ∧ messages (page st') = []
  ∧ requests (env st') = [getChats; getMessages "2"]
  ∧ input (window st') = "draft".
Proof.
  intros st st'. split; [vm_compute; reflexivity|].
  assert (Hs : socket (env st)
               = Some (socket_on "disconnect"
                         (socket_on "connect_error"
                            (socket_on "connect"
                               (mkSocket 1 SOCKET_URL "/socket.io/" "jwt"
                                  ["websocket"; "polling"] true 5 2000 [])))))
    by (vm_compute; reflexivity).
  destruct (select_resets_and_fetches st _ Scenario.chat2 Hs)
    as (_ & Hm & _ & Hr & _ & _ & _ & _ & Hi & _).
  split; [exact Hm|]. subst st'. rewrite Hr, Hi.
  split; vm_compute; reflexivity.
Defined.

(** X4. Selecting the very object that is already selected empties the
    message list and does nothing else: the effects do not re-run, so no
    signal is emitted and no history is requested to refill the list. *)
Theorem reselect_blanks_the_list (st : App) (chat : Chat) :
  selectedChat (page st) = Some chat →
  step st ReselectChat = with_page (page_messages []) st.
Proof.
  destruct_app st. cbn. intros ->. reflexivity.
Qed.

Lemma reselect_blanks_the_list_witness :
  let st := run Scenario.page0
              [SelectChat Scenario.chat1;
               MessagesFetched "1" (Resolved (Some [Scenario.m1]))] in
  messages (page st) = [Scenario.m1]
  ∧ messages (page (step st ReselectChat)) = []
  ∧ requests (env (step st ReselectChat)) = requests (env st)
  ∧ trace (env (step st ReselectChat)) = trace (env st).
Proof.
  intros st. split; [vm_compute; reflexivity|].
  assert (Hsel : selectedChat (page st) = Some Scenario.chat1)
    by (vm_compute; reflexivity).
  rewrite (reselect_blanks_the_list st Scenario.chat1 Hsel).
  split; [vm_compute; reflexivity|]. split; vm_compute; reflexivity.
Defined.

(** ** Pushes *)

Lemma new_message_keeps_listener (st : App) (msg : Message) :
  on_new_message (page (step st (NewMessage msg))) = on_new_message (page st).
Proof. destruct_app st. unfold_handler. crunch; done. Qed.

Lemma new_message_messages (st : App) (sel : option Chat) (msg : Message) :
  on_new_message (page st) = Some sel →
  messages (page (step st (NewMessage msg)))
  = messages (page st)
    ++ filter (λ m, Some (chat_id m) = _id <$> sel) [msg].
Proof.
  destruct_app st. cbn. intros ->. unfold_handler.
  destruct sel as [c|]; crunch; rewrite ?app_nil_r; congruence.
Qed.

(** X5. Push messages are merged in arrival order: after any sequence of
    [new_message] events the message list is the previous list followed by
    those of the pushed messages that belong to the conversation the
    listener closes over, in the order they arrived; pushes for other
    conversations, or with nothing selected, are left out. *)
Theorem pushes_append_in_arrival_order (st : App) (sel : option Chat)
    (msgs : list Message) :
  on_new_message (page st) = Some sel →
  messages (page (run st (NewMessage <$> msgs)))
  = messages (page st) ++ filter (λ m, Some (chat_id m) = _id <$> sel) msgs.
Proof.
  revert st. induction msgs as [|m msgs IH]; intros st Hreg.
  - cbn. by rewrite app_nil_r.
  - rewrite fmap_cons.
    change (run st (NewMessage m :: (NewMessage <$> msgs)))
      with (run (step st (NewMessage m)) (NewMessage <$> msgs)).
    rewrite IH by (by rewrite new_message_keeps_listener).
    rewrite (new_message_messages st sel m Hreg).
    rewrite <- app_assoc. f_equal.
    change (m :: msgs) with ([m] ++ msgs). by rewrite filter_app.
Qed.

Lemma pushes_append_in_arrival_order_witness :
  let st := run Scenario.page0 [SelectChat Scenario.chat1] in
  let other := mkMessage "x1" "2" "carol" (Some "psst") "2024-01-01T10:00:03Z" in
  messages (page (run st (NewMessage <$> [Scenario.m2; other; Scenario.m1])))
  = [Scenario.m2; Scenario.m1].
Proof.
  intros st other.
  assert (Hreg : on_new_message (page st) = Some (Some Scenario.chat1))
    by (vm_compute; reflexivity).
  rewrite (pushes_append_in_arrival_order st (Some Scenario.chat1) _ Hreg).
  vm_compute. reflexivity.
Defined.

Lemma new_message_chats (st : App) (sel : option Chat) (msg : Message) :
  on_new_message (page st) = Some sel →
  chats (page (step st (NewMessage msg))) = project msg <$> chats (page st).
Proof.
  destruct_app st. cbn. intros ->. unfold_handler. crunch; done.
Qed.

Lemma project_same_conversation (m1 m2 : Message) (c : Chat) :
  chat_id m1 = chat_id m2 → project m2 (project m1 c) = project m2 c.
Proof.
  intros Heq. unfold project.
  repeat (case_decide; cbn in *; try congruence).
Qed.

Lemma project_other_conversation (m1 m2 : Message) (c : Chat) :
  chat_id m1 ≠ chat_id m2 →
  project m2 (project m1 c) = project m1 (project m2 c).
Proof.
  intros Hne. unfold project.
  repeat (case_decide; cbn in *; try congruence).
Qed.

(** X6. Summaries keep the latest push only: of two pushes for the same
    conversation the second overwrites what the first wrote, so the list
    is as if only the second had arrived; pushes for different
    conversations can be handled in either order with the same list. *)
Theorem projection_last_push_wins (st : App) (sel : option Chat)
    (m1 m2 : Message) :
  on_new_message (page st) = Some sel →
  (chat_id m1 = chat_id m2 →
   chats (page (run st [NewMessage m1; NewMessage m2]))
   = chats (page (step st (NewMessage m2))))
  ∧ (chat_id m1 ≠ chat_id m2 →
     chats (page (run st [NewMessage m1; NewMessage m2]))
     = chats (page (run st [NewMessage m2; NewMessage m1]))).
Proof.
  intros Hreg. cbn.
  assert (H1 := new_message_keeps_listener st m1).
  assert (H2 := new_message_keeps_listener st m2).
  rewrite Hreg in H1, H2.
  rewrite (new_message_chats _ sel m2 H1), (new_message_chats _ sel m1 H2),
          (new_message_chats st sel m1 Hreg), (new_message_chats st sel m2 Hreg).
  rewrite <- !list_fmap_compose.
  split; intros H; apply list_fmap_ext; intros _ c _; cbn.
  - by apply project_same_conversation.
  - by apply project_other_conversation.
Qed.

Lemma projection_last_push_wins_witness :
  let st := run Scenario.page0
              [ChatsFetched (Resolved (Some [Scenario.chat1; Scenario.chat2]))] in
  chats (page (run st [NewMessage Scenario.m1; NewMessage Scenario.m2]))
  = chats (page (step st (NewMessage Scenario.m2))).
Proof.
  intros st.
  assert (Hreg : on_new_message (page st) = Some None)
    by (vm_compute; reflexivity).
  destruct (projection_last_push_wins st None Scenario.m1 Scenario.m2 Hreg)
    as [Hsame _].
  apply Hsame. reflexivity.
Defined.

(** X7. A push for a conversation that is not in the list leaves the list
    as it is: the unknown conversation is not added and no entry changes. *)
Theorem push_for_unknown_conversation (st : App) (msg : Message) :
  (∀ c, c ∈ chats (page st) → _id c ≠ chat_id msg) →
  chats (page (step st (NewMessage msg))) = chats (page st).
Proof.
  intros Hnone.
  destruct (on_new_message (page st)) as [sel|] eqn:Hreg.
  - rewrite (new_message_chats st sel msg Hreg).
    rewrite <- (list_fmap_id (chats (page st))) at 2.
    apply list_fmap_ext. intros i c Hc. cbn. unfold project.
    rewrite decide_False; [done|].
    apply Hnone. by eapply list_elem_of_lookup_2.
  - destruct_app st. cbn in Hreg. subst tonm. reflexivity.
Qed.

Lemma push_for_unknown_conversation_witness :
  let st := run Scenario.page0
              [ChatsFetched (Resolved (Some [Scenario.chat2]))] in
  chats (page (step st (NewMessage Scenario.m1))) = [Scenario.chat2].
Proof.
  intros st.
  assert (Hchats : chats (page st) = [Scenario.chat2])
    by (vm_compute; reflexivity).
  rewrite push_for_unknown_conversation; [exact Hchats|].
  rewrite Hchats. intros c Hc. apply list_elem_of_singleton in Hc as ->.
  discriminate.
Defined.

(** ** Requests in flight *)

Lemma filter_remove_first_other (kind : Request → bool) (r : Request)
    (l : list Request) :
  kind r = false →
  filter (λ x, kind x = true) (remove_first r l) = filter (λ x, kind x = true) l.
Proof.
  intros Hr. induction l as [|y l IH]; [done|].
  cbn [remove_first]. destruct (decide (y = r)) as [->|Hne].
  - rewrite filter_cons_False by congruence. done.
  - rewrite !filter_cons. by rewrite IH.
Qed.

Lemma filter_remove_first_in (kind : Request → bool) (r : Request)
    (l : list Request) :
  kind r = true → r ∈ l →
  S (length (filter (λ x, kind x = true) (remove_first r l)))
  = length (filter (λ x, kind x = true) l).
Proof.
  intros Hr. induction l as [|y l IH]; [by intros ?%elem_of_nil|].
  cbn [remove_first]. intros Hin. destruct (decide (y = r)) as [->|Hne].
  - by rewrite filter_cons_True.
  - apply elem_of_cons in Hin as [->|Hin]; [done|].
    rewrite !filter_cons. destruct (decide (kind y = true)); cbn [length];
      by rewrite IH.
Qed.

Lemma filter_kind_snoc (kind : Request → bool) (r : Request) (l : list Request) :
  filter (λ x, kind x = true) (l ++ [r])
  = filter (λ x, kind x = true) l ++ (if kind r then [r] else []).
Proof.
  rewrite filter_app. f_equal. destruct (kind r) eqn:Hr.
  - by rewrite filter_cons_True.
  - rewrite filter_cons_False by congruence. done.
Qed.

Lemma flags_count_mount (cookie : option string) (user : option User) :
  flags_count (mount cookie user).
Proof.
  unfold flags_count, in_flight, mount, boot. unfold_handler.
  destruct cookie as [t|]; cbn; [|done].
  destruct (t =? "")%string; cbn; done.
Qed.

Lemma flags_count_step (st : App) (ev : Event) :
  flags_count st → flags_count (step st ev).
Proof.
  unfold flags_count, in_flight. destruct ev.
  11: { unfold_handler. elapse_frame. by rewrite Hreq. }
  all: destruct_app st; cbn; intros [Hl Hs].
  all: try destruct res; unfold_handler.
  all: crunch;
    rewrite ?filter_kind_snoc, ?length_app; cbn;
    rewrite ?Nat.add_0_r; try done.
  all: repeat match goal with
       | |- context [filter (λ x, ?k x = true) (remove_first ?r ?l)] =>
           rewrite (filter_remove_first_other k r l) by reflexivity
       end; try done.
  all: try match goal with
       | H : ?r ∈ ?l |- context [remove_first ?r ?l] =>
           first [ pose proof (filter_remove_first_in is_list_fetch r l eq_refl H)
                 | pose proof (filter_remove_first_in is_send r l eq_refl H) ]
       end.
  all: repeat match goal with
       | H : context [if ?b then _ else _] |- _ => is_var b; destruct b
       end.
  all: lia.
Qed.

Lemma flags_count_run (cookie : option string) (user : option User)
    (evs : list Event) :
  flags_count (run (mount cookie user) evs).
Proof.
  apply run_invariant; [apply flags_count_step|apply flags_count_mount].
Qed.

Lemma filter_kind_elem (kind : Request → bool) (l : list Request) :
  (0 < length (filter (λ x, kind x = true) l)) ↔ ∃ r, r ∈ l ∧ kind r = true.
Proof.
  split.
  - destruct (filter _ l) as [|r k] eqn:Hf; cbn; [lia|]. intros _.
    assert (Hr : r ∈ filter (λ x, kind x = true) l) by (rewrite Hf; by left).
    apply list_elem_of_filter in Hr as [? ?]. eauto.
  - intros (r & Hr & Hk).
    assert (Hin : r ∈ filter (λ x, kind x = true) l)
      by (by apply list_elem_of_filter).
    destruct (filter _ l); [by apply elem_of_nil in Hin|cbn; lia].
Qed.

(** X8. The loading flag of the conversation list shows exactly while the
    list request is in flight: along every run from the first commit,
    [loadingChats] is true if and only if [getChats] has not settled. *)
Theorem loading_while_list_in_flight (cookie : option string)
    (user : option User) (evs : list Event) :
  let st := run (mount cookie user) evs in
  loadingChats (page st) = true ↔ getChats ∈ requests (env st).
Proof.
  intros st. destruct (flags_count_run cookie user evs) as [Hl _].
  fold st in Hl. unfold in_flight in Hl.
  pose proof (filter_kind_elem is_list_fetch (requests (env st))) as Hiff.
  split.
  - intros Ht. rewrite Ht in Hl.
    destruct Hiff as [Hex _]. destruct Hex as (r & Hr & Hk); [lia|].
    by destruct r.
  - intros Hin. destruct (loadingChats (page st)); [done|].
    destruct Hiff as [_ Hex]. specialize (Hex (ex_intro _ getChats (conj Hin eq_refl))).
    lia.
Qed.

(** X9. At most one send is in flight at any time, and the sending flag is
    set exactly while one is: along every run from the first commit the
    number of [sendMessage] requests in flight is 1 when [sending] is true
    and 0 when it is false. *)
Theorem single_send_in_flight (cookie : option string) (user : option User)
    (evs : list Event) :
  let st := run (mount cookie user) evs in
  length (in_flight is_send st) = (if sending (window st) then 1 else 0)
  ∧ (sending (window st) = true
     ↔ ∃ chat body, sendMessage chat body ∈ requests (env st)).
Proof.
  intros st. destruct (flags_count_run cookie user evs) as [_ Hs].
  fold st in Hs. split; [exact Hs|]. unfold in_flight in Hs.
  pose proof (filter_kind_elem is_send (requests (env st))) as Hiff.
  split.
  - intros Ht. rewrite Ht in Hs.
    destruct Hiff as [Hex _]. destruct Hex as (r & Hr & Hk); [lia|].
    destruct r; try discriminate. eauto.
  - intros (chat & body & Hin). destruct (sending (window st)); [done|].
    destruct Hiff as [_ Hex].
    specialize (Hex (ex_intro _ (sendMessage chat body) (conj Hin eq_refl))).
    lia.
Qed.

(* ===================================================================== *)
(** * Further properties of the window ([ChatWindow.jsx]) *)
(* ===================================================================== *)

(** The body of a send is the trimmed input, whatever [trim] makes of it. *)
#[local] Arguments trim : simpl never.

(** X10. The send button and [handleSend] agree: submitting does nothing
    when no conversation is selected or when the button is disabled (the
    trimmed input is empty, or a send is in flight); otherwise it sets the
    sending flag and issues exactly one request, for the selected
    conversation, carrying the trimmed input. *)
Theorem send_button_matches_guard (st : App) :
  match selectedChat (page st) with
  | None => step st SubmitForm = st
  | Some chat =>
      if send_disabled st
      then step st SubmitForm = st
      else step st SubmitForm
           = with_env
               (env_requests
                  (requests (env st)
                   ++ [sendMessage chat (trim (input (window st)))]))
               (with_window (window_sending true) st)
  end.
Proof.
  unfold send_disabled. destruct_app st. unfold_handler.
  destruct tsel as [chat|]; [|done].
  destruct (trim tinput =? "")%string, tsending; done.
Qed.

(** X11. A send that fails keeps the draft: when the request is rejected
    the input box is left as it is, the sending flag is cleared and the
    error is logged; no signal is emitted and the lists do not change. *)
Theorem failed_send_keeps_draft (st : App) (chat : Chat) (body err : string) :
  sendMessage chat body ∈ requests (env st) →
  let st' := step st (MessageSent chat body (Rejected err)) in
  input (window st') = input (window st)
  ∧ sending (window st') = false
  ∧ trace (env st')
    = trace (env st)
      ++ [(now (env st), error_logged "Failed to send message:" err)]
  ∧ page st' = page st
  ∧ fst (handle (MessageSent chat body (Rejected err)) st) = Normal tt.
Proof.
  intros Hin. destruct_app st. cbn in Hin. unfold_handler.
  destruct (decide (sendMessage chat body ∈ treqs)); done.
Qed.

Lemma failed_send_keeps_draft_witness :
  let st := run Scenario.page0
              [SelectChat Scenario.chat1; InputChange " hello "; SubmitForm] in
  let st' := step st (MessageSent Scenario.chat1 "hello"
                        (Rejected "Network Error")) in
  sendMessage Scenario.chat1 "hello" ∈ requests (env st)
  ∧ input (window st') = " hello "
  ∧ sending (window st') = false.
Proof.
  intros st st'.
  assert (Hin : sendMessage Scenario.chat1 "hello" ∈ requests (env st))
    by (apply (bool_decide_unpack _); vm_compute; exact I).
  split; [exact Hin|].
  destruct (failed_send_keeps_draft st Scenario.chat1 "hello"
              "Network Error" Hin) as (Hi & Hs & _).
  split; [|exact Hs]. subst st'. rewrite Hi. vm_compute. reflexivity.
Defined.

(** X12. A send that succeeds, on a connected page: the input box is
    emptied whatever it holds by then, the sending flag is cleared, and a
    typing-stop is emitted for the conversation the message was submitted
    in, whatever is selected by then.  The message list is not touched:
    the sent message is shown only when the server pushes it back. *)
Theorem successful_send (st : App) (s : Socket) (chat : Chat)
    (body : string) (sent : Message) :
  sendMessage chat body ∈ requests (env st) →
  socket (env st) = Some s →
  let st' := step st (MessageSent chat body (Resolved sent)) in
  input (window st') = ""
  ∧ sending (window st') = false
  ∧ trace (env st')
    = trace (env st) ++ [(now (env st), emit s (typing_stop (_id chat)))]
  ∧ page st' = page st
  ∧ timers (env st') = timers (env st).
Proof.
  intros Hin. destruct_app st. cbn in Hin. cbn. intros ->. unfold_handler.
  destruct (decide (sendMessage chat body ∈ treqs)); done.
Qed.

Lemma successful_send_witness :
  let st := run Scenario.page0
              [SelectChat Scenario.chat1; InputChange "hello"; SubmitForm;
               SelectChat Scenario.chat2; InputChange "next draft"] in
  let st' := step st (MessageSent Scenario.chat1 "hello"
                        (Resolved Scenario.m1)) in
  selectedChat (page st') = Some Scenario.chat2
  ∧ input (window st) = "next draft"
  ∧ input (window st') = ""
  ∧ signals st' = signals st ++ [typing_stop "1"]
  ∧ messages (page st') = [].
Proof.
  intros st st'.
  assert (Hin : sendMessage Scenario.chat1 "hello" ∈ requests (env st))
    by (apply (bool_decide_unpack _); vm_compute; exact I).
  assert (Hs : socket (env st)
               = Some (socket_on "disconnect"
                         (socket_on "connect_error"
                            (socket_on "connect"
                               (mkSocket 1 SOCKET_URL "/socket.io/" "jwt"
                                  ["websocket"; "polling"] true 5 2000 [])))))
    by (vm_compute; reflexivity).
  destruct (successful_send st _ Scenario.chat1 "hello" Scenario.m1 Hin Hs)
    as (Hi & _ & Ht & Hp & _).
  fold st' in Hi, Ht, Hp.
  split; [rewrite Hp; vm_compute; reflexivity|].
  split; [vm_compute; reflexivity|]. split; [exact Hi|].
  split; [unfold signals; rewrite Ht, omap_app; reflexivity|].
  rewrite Hp. vm_compute. reflexivity.
Defined.

(** ** Listeners and the selection *)

Lemma effects_current_mount (cookie : option string) (user : option User) :
  effects_current (mount cookie user).
Proof.
  unfold effects_current, mount, boot. unfold_handler.
  destruct cookie as [t|]; cbn; [|done].
  destruct (t =? "")%string; cbn; done.
Qed.

Lemma effects_current_step (st : App) (ev : Event) :
  effects_current st → effects_current (step st ev).
Proof.
  unfold effects_current. destruct ev.
  11: { unfold_handler. elapse_frame. rewrite Hsock. done. }
  all: destruct_app st; cbn; intros (-> & -> & ->).
  all: try destruct res; unfold_handler; crunch; done.
Qed.

Lemma step_currentUser (st : App) (ev : Event) :
  currentUser (step st ev) = currentUser st.
Proof.
  destruct ev.
  11: { unfold_handler. elapse_frame. done. }
  all: destruct_app st; try destruct res; unfold_handler; crunch; done.
Qed.

Lemma run_currentUser (cookie : option string) (user : option User)
    (evs : list Event) :
  currentUser (run (mount cookie user) evs) = user.
Proof.
  apply (run_invariant (λ st, currentUser st = user)).
  - intros st ev <-. apply step_currentUser.
  - unfold mount, boot. unfold_handler.
    destruct cookie as [t|]; cbn; [|done].
    destruct (t =? "")%string; cbn; done.
Qed.

(** X13. No listener or clean-up survives from an earlier selection: along
    every run from the first commit, on a connected page the [new_message]
    listener closes over the current selection, and the [user_typing]
    listener and the leave clean-up are those of the selected conversation
    (none when nothing is selected); on a page without a socket nothing is
    registered. *)
Theorem effects_follow_selection (cookie : option string)
    (user : option User) (evs : list Event) :
  let st := run (mount cookie user) evs in
  currentUser st = user
  ∧ match socket (env st) with
    | Some s =>
        on_new_message (page st) = Some (selectedChat (page st))
        ∧ on_user_typing (window st)
          = (λ c, (c, user)) <$> selectedChat (page st)
        ∧ room_cleanup (page st) = (λ c, (s, c)) <$> selectedChat (page st)
    | None =>
        on_new_message (page st) = None
        ∧ on_user_typing (window st) = None
        ∧ room_cleanup (page st) = None
    end.
Proof.
  intros st.
  assert (Hu : currentUser st = user) by apply run_currentUser.
  split; [exact Hu|].
  assert (He : effects_current st).
  { apply run_invariant; [apply effects_current_step|].
    apply effects_current_mount. }
  destruct He as (H1 & H2 & H3). rewrite Hu in H2.
  destruct (socket (env st)), (selectedChat (page st)); done.
Qed.

(** ** Remote typing signals *)

(** X14. Typing signals that are not for the displayed conversation, or
    that come from the user themselves, are ignored, as is every typing
    signal while no listener is registered: the state does not change. *)
Theorem foreign_typing_ignored (st : App) (data : TypingData) :
  match on_user_typing (window st) with
  | Some (chat, cu) =>
      typing_chat_id data ≠ _id chat
      ∨ Some (user_id data) = user__id <$> cu
  | None => True
  end →
  step st (UserTyping data) = st.
Proof.
  destruct_app st. cbn. destruct tout as [[chat cu]|]; [|done].
  intros Hguard. unfold_handler.
  destruct (decide (typing_chat_id data ≠ _id chat)); [done|].
  destruct (decide (Some (user_id data) = user__id <$> cu)); [done|].
  by destruct Hguard.
Qed.

Lemma foreign_typing_ignored_witness :
  let st := run Scenario.page0
              [SelectChat Scenario.chat1;
               UserTyping (mkTypingData "1" "bob" true)] in
  typingUsers (window st) = ["bob"]
  ∧ step st (UserTyping (mkTypingData "2" "carol" true)) = st
  ∧ step st (UserTyping (mkTypingData "1" "alice" true)) = st.
Proof.
  intros st. split; [vm_compute; reflexivity|].
  assert (Hreg : on_user_typing (window st)
                 = Some (Scenario.chat1, Some Scenario.alice))
    by (vm_compute; reflexivity).
  split; apply foreign_typing_ignored; rewrite Hreg.
  - left. discriminate.
  - right. reflexivity.
Defined.

Lemma step_typingUsers_other (st : App) (ev : Event) :
  (∀ data, ev ≠ UserTyping data) →
  typingUsers (window (step st ev)) = typingUsers (window st)
  ∨ typingUsers (window (step st ev)) = [].
Proof.
  intros Hev. destruct ev.
  7: by destruct (Hev data).
  10: { left. unfold_handler. elapse_frame. done. }
  all: destruct_app st; try destruct res; unfold_handler; crunch; eauto.
Qed.

Lemma self_absent_step (st : App) (ev : Event) :
  effects_current st → self_absent st → self_absent (step st ev).
Proof.
  unfold self_absent. intros (_ & Hreg & _) Habs u.
  rewrite step_currentUser. intros Hu. specialize (Habs u Hu).
  destruct ev.
  7: {
    revert Habs Hreg Hu. destruct_app st. cbn. intros Habs -> ->.
    unfold_handler. destruct tsock, tsel; cbn; try done.
    destruct (decide (typing_chat_id data ≠ _id c)); [done|].
    destruct (decide (Some (user_id data) = Some (user__id u))) as [|Hne];
      [done|].
    cbn. unfold typing_update, includes.
    destruct (is_typing data).
    - case_bool_decide; [done|].
      intros [?|Hin%list_elem_of_singleton]%elem_of_app; [done|].
      congruence.
    - by intros [_ ?]%list_elem_of_filter. }
  all: match goal with
       | |- context [step ?s ?e] =>
           destruct (step_typingUsers_other s e) as [-> | ->];
           [ intros ?; discriminate | done | apply not_elem_of_nil ]
       end.
Qed.

(** X15. The indicator never shows the user's own typing: along every run
    from the first commit the user's own id is not in the remote typing
    set. *)
Theorem own_typing_never_shown (cookie : option string) (u : User)
    (evs : list Event) :
  user__id u ∉ typingUsers (window (run (mount cookie (Some u)) evs)).
Proof.
  assert (H : effects_current (run (mount cookie (Some u)) evs)
              ∧ self_absent (run (mount cookie (Some u)) evs)).
  { apply (run_invariant (λ st, effects_current st ∧ self_absent st)).
    - intros st ev [He Hs]. split; [by apply effects_current_step|].
      by apply self_absent_step.
    - split; [apply effects_current_mount|].
      intros u' _. rewrite mount_typingUsers. apply not_elem_of_nil. }
  destruct H as [_ Hs]. apply Hs, run_currentUser.
Qed.

(** ** The joined room *)

(** X16. The subscription follows the selection: along every run from the
    first commit, the rooms this connection has joined are exactly the
    selected conversation's on a connected page, and none otherwise. *)
Theorem joined_room_is_selection (cookie : option string)
    (user : option User) (evs : list Event) :
  let st := run (mount cookie user) evs in
  rooms (signals st)
  = match socket (env st), selectedChat (page st) with
    | Some _, Some c => [_id c]
    | _, _ => []
    end.
Proof.
  intros st.
  destruct (subscribed_run cookie user evs) as [(Ht & _) _]. fold st in Ht.
  assert (He : effects_current st).
  { apply run_invariant; [apply effects_current_step|].
    apply effects_current_mount. }
  destruct He as (_ & _ & Hroom).
  unfold subscription_of in Ht. rewrite Hroom in Ht.
  destruct (socket (env st)), (selectedChat (page st)); cbn in Ht; by destruct Ht.
Qed.

(** ** The idle timer *)

Lemma one_timer_mount (cookie : option string) (user : option User) :
  one_timer (mount cookie user).
Proof.
  left. unfold mount, boot. unfold_handler.
  destruct cookie as [t|]; cbn; [|done].
  destruct (t =? "")%string; cbn; done.
Qed.

Lemma one_timer_step (st : App) (ev : Event) :
  one_timer st → one_timer (step st ev).
Proof.
  unfold one_timer. destruct_app st. cbn [env timers now window typingTimeoutRef].
  intros [-> | (t & -> & -> & Hdue)].
  all: destruct ev; try destruct res; unfold_handler; crunch.
  all: try (left; reflexivity).
  all: try (right; eexists; split; [reflexivity|]; split; [reflexivity|];
            cbn; lia).
  all: try (left; unfold fire; unfold_handler;
            by rewrite decide_False by (intros ?; done)).
  done.
Qed.

Lemma one_timer_run (cookie : option string) (user : option User)
    (evs : list Event) :
  one_timer (run (mount cookie user) evs).
Proof.
  apply run_invariant; [apply one_timer_step|apply one_timer_mount].
Qed.

(** X17. A single idle timer: along every run from the first commit at
    most one timeout is pending; when one is, it is the timer
    [typingTimeoutRef] names, it is not overdue and it comes due within
    2000 ms. *)
Theorem single_idle_timer (cookie : option string) (user : option User)
    (evs : list Event) :
  let st := run (mount cookie user) evs in
  length (timers (env st)) ≤ 1
  ∧ ∀ t, t ∈ timers (env st) →
         typingTimeoutRef (window st) = Some (timer_id t)
         ∧ now (env st) < due t ≤ now (env st) + 2000.
Proof.
  intros st. destruct (one_timer_run cookie user evs) as [H | (t & H & ? & ?)];
    fold st in H; rewrite H; cbn.
  - split; [lia|]. by intros t ?%elem_of_nil.
  - split; [lia|]. by intros t' ->%list_elem_of_singleton.
Qed.

Lemma dropped_step (a : string) (t : Timer) (stops0 : list nat) (st : App)
    (ev : Event) :
  _id (cb_chat t) ≠ a → quiet ev = true →
  dropped a t stops0 st → dropped a t stops0 (step st ev).
Proof.
  unfold dropped, typing_stops. intros Ha.
  destruct ev; try destruct res; try discriminate; intros _.
  all: destruct_app st; cbn [env timers now trace].
  all: intros [[-> | ->] Hstops].
  all: unfold_handler; crunch.
  all: rewrite ?omap_app; cbn; rewrite ?app_nil_r.
  all: try (split; [by left|done]).
  all: try (split; [by right|done]).
  unfold fire. unfold_handler.
  rewrite decide_False by (intros ?; done).
  rewrite omap_app, Hstops. cbn.
  rewrite decide_False by done. cbn. rewrite app_nil_r.
  split; [by right|done].
Qed.

Lemma dropped_run (a : string) (t : Timer) (stops0 : list nat)
    (evs : list Event) :
  _id (cb_chat t) ≠ a →
  ∀ st, forallb quiet evs = true →
        dropped a t stops0 st → dropped a t stops0 (run st evs).
Proof.
  intros Ha. induction evs as [|ev evs IH]; intros st Hq Hd; [done|].
  cbn in Hq. apply andb_prop in Hq as [Hq Hqs].
  cbn. apply IH; [done|]. by apply dropped_step.
Qed.

(** X18. Typing elsewhere drops the pending typing-stop: when the user
    makes a content change in the selected conversation, whatever idle
    timer was pending is discarded, so a conversation typed in before gets
    no typing-stop from it.  As long as no further content change and no
    successful send follows, no typing-stop for any other conversation is
    emitted at all. *)
Theorem typing_elsewhere_drops_stop (cookie : option string)
    (user : option User) (before : list Event) (s : Socket) (b : Chat)
    (a value : string) (after : list Event) :
  let st := run (mount cookie user) before in
  let st2 := run (step st (InputChange value)) after in
  socket (env st) = Some s →
  selectedChat (page st) = Some b →
  _id b ≠ a →
  forallb quiet after = true →
  typing_stops a (trace (env st2)) = typing_stops a (trace (env st)).
Proof.
  intros st st2 Hs Hb Ha Hq.
  destruct (onChange_arms st s b value (timer_tracked_run _ _ _) Hs Hb)
    as (Htrace & Htimers & _ & _).
  set (t := mkTimer (S (timers_made (env st))) (now (env st) + 2000) s b) in *.
  assert (Hd : dropped a t (typing_stops a (trace (env st)))
                 (step st (InputChange value))).
  { split; [by left|]. unfold typing_stops. rewrite Htrace, omap_app. cbn.
    by rewrite app_nil_r. }
  apply (dropped_run a t _ after) in Hd; [|done|done].
  by destruct Hd as [_ Hd].
Qed.

Lemma typing_elsewhere_drops_stop_witness :
  let before := [SelectChat Scenario.chat1; InputChange "h"; Elapse 500;
                 SelectChat Scenario.chat2] in
  let st := run Scenario.page0 before in
  let st2 := run (step st (InputChange "x")) [Elapse 5000] in
  (cb_chat <$> timers (env st)) = [Scenario.chat1]
  ∧ typing_stops "1" (trace (env st2)) = []
  ∧ typing_stops "2" (trace (env st2)) = [2500].
Proof.
  intros before st st2. split; [vm_compute; reflexivity|].
  assert (Hs : socket (env st)
               = Some (socket_on "disconnect"
                         (socket_on "connect_error"
                            (socket_on "connect"
                               (mkSocket 1 SOCKET_URL "/socket.io/" "jwt"
                                  ["websocket"; "polling"] true 5 2000 [])))))
    by (vm_compute; reflexivity).
  assert (Hb : selectedChat (page st) = Some Scenario.chat2)
    by (vm_compute; reflexivity).
  split; [|vm_compute; reflexivity].
  unfold st2. unfold st, Scenario.page0 in Hs, Hb |- *.
  rewrite (typing_elsewhere_drops_stop (Some "jwt") (Some Scenario.alice)
             before _ Scenario.chat2 "1" "x" [Elapse 5000] Hs Hb);
    [vm_compute; reflexivity|discriminate|reflexivity].
Defined.

(* ===================================================================== *)
(** * Further properties of the connection ([socket.js]) *)
(* ===================================================================== *)

(** X19. Reconnecting takes the new credential: after [disconnectSocket],
    [connectSocket] opens a new socket, whatever the state before, and
    authenticates it with the token it is given; the trace shows the old
    socket, if there was one, disconnected before the new one is opened. *)
Theorem reconnect_uses_new_token (st : App) (token : string) :
  let st1 := exec disconnectSocket st in
  let st2 := exec (connectSocket token) st1 in
  ∃ s0 s,
    fst (connectSocket token st1) = Normal s
    ∧ socket (env st2) = Some s
    ∧ s = socket_on "disconnect"
            (socket_on "connect_error" (socket_on "connect" s0))
    ∧ auth_token s = token
    ∧ sock_no s = S (sockets_made (env st))
    ∧ trace (env st2)
      = trace (env st)
        ++ match socket (env st) with
           | Some old => [(now (env st), io_disconnect old)]
           | None => []
           end
        ++ [(now (env st), io_open s0)].
Proof.
  destruct_app st. unfold_handler.
  destruct tsock as [old|]; cbn; do 2 eexists;
    (split; [reflexivity|]); (split; [reflexivity|]);
    (split; [reflexivity|]); (split; [reflexivity|]);
    (split; [reflexivity|]); by rewrite <- ?app_assoc.
Qed.

(* ===================================================================== *)
(** * Properties of the session *)
(* ===================================================================== *)

Create HintDb session discriminated.
#[global] Hint Unfold mbind Eff_bind mret Eff_ret reads update raise pass
  catching finally within
  Token.getAccessToken Token.getRefreshToken Token.setTokens
  Token.removeTokens Cookies_get Cookies_set Cookies_remove go later
  Axios.request_interceptor Axios.outgoing_headers Axios.default_headers
  Axios.response_interceptor Axios.awaiting
  Auth.with_browser Auth.setUser Auth.setLoading Auth.in_browser Auth.initial
  Auth.hydrate Auth.hydrate_resume Auth.login_resume Auth.register_resume
  Auth.logout
  Sidebar.setSearchQuery Sidebar.setSearchResults Sidebar.setSearching
  Sidebar.call Sidebar.awaited Sidebar.handleSearch
  Sidebar.handleSearch_resume Sidebar.in_sidebar Sidebar.in_page
  Sidebar.startChat Sidebar.startChat_resume
  Login.setError Login.setLoading
  Login.in_auth Login.navigate
  Login.handleSubmit Login.detail_of Login.report Login.handleSubmit_resume
  : session.

Ltac unfold_session := autounfold with session; cbn.

(** ** Cookies *)

Lemma assoc_filter_out {A} (name : string) (l : list (string * A)) :
  assoc name (filter (λ e, e.1 ≠ name) l) = None.
Proof.
  induction l as [|[n a] l IH]; [done|].
  rewrite filter_cons. cbn [fst]. destruct (decide (n ≠ name)) as [Hne|Heq].
  - cbn [assoc]. by rewrite decide_False.
  - done.
Qed.

Lemma assoc_filter_other {A} (name other : string) (l : list (string * A)) :
  other ≠ name →
  assoc other (filter (λ e, e.1 ≠ name) l) = assoc other l.
Proof.
  intros Hne. induction l as [|[n a] l IH]; [done|].
  rewrite filter_cons. cbn [fst assoc].
  destruct (decide (n ≠ name)) as [Hn|Hn]; cbn [assoc].
  - by rewrite IH.
  - apply dec_stable in Hn. subst n. by rewrite decide_False.
Qed.

Lemma keys_differ : Token.ACCESS_KEY ≠ Token.REFRESH_KEY.
Proof. discriminate. Qed.

Lemma toUTCString_bounds (ms : N) :
  (toUTCString ms ≤ ms < toUTCString ms + 1000)%N.
Proof.
  unfold toUTCString.
  pose proof (N.Div0.mul_div_le ms 1000).
  pose proof (N.mul_succ_div_gt ms 1000).
  lia.
Qed.

Lemma getAccessToken_setTokens (a r : string) (ms : N) (b : Browser) :
  ((ms + 1000 ≤ day)%N →
   Token.getAccessToken (later ms (Token.setTokens a r b)) = Some a)
  ∧ ((day ≤ ms)%N →
     Token.getAccessToken (later ms (Token.setTokens a r b)) = None).
Proof.
  unfold Token.getAccessToken, Token.setTokens, Cookies_get, Cookies_set, later.
  cbn [jar clock assoc].
  rewrite decide_False by (intros H; by apply keys_differ).
  rewrite assoc_filter_other by apply keys_differ.
  cbn [jar assoc]. rewrite decide_True by done. cbn [cookie_expires cookie_value].
  pose proof (toUTCString_bounds (clock b + 1 * day)).
  split; intros Hms.
  - rewrite decide_True by lia. done.
  - rewrite decide_False by lia. done.
Qed.

Lemma getRefreshToken_setTokens (a r : string) (ms : N) (b : Browser) :
  ((ms + 1000 ≤ 7 * day)%N →
   Token.getRefreshToken (later ms (Token.setTokens a r b)) = Some r)
  ∧ ((7 * day ≤ ms)%N →
     Token.getRefreshToken (later ms (Token.setTokens a r b)) = None).
Proof.
  unfold Token.getRefreshToken, Token.setTokens, Cookies_get, Cookies_set, later.
  cbn [jar clock assoc]. rewrite decide_True by done.
  cbn [cookie_expires cookie_value].
  pose proof (toUTCString_bounds (clock b + 7 * day)).
  split; intros Hms.
  - rewrite decide_True by lia. done.
  - rewrite decide_False by lia. done.
Qed.

Lemma later_0 (b : Browser) : later 0 b = b.
Proof. destruct b. unfold later. cbn. by rewrite N.add_0_r. Qed.

(** Tokens just stored read back at once. *)
Lemma getTokens_setTokens (a r : string) (b : Browser) :
  Token.getAccessToken (Token.setTokens a r b) = Some a
  ∧ Token.getRefreshToken (Token.setTokens a r b) = Some r.
Proof.
  pose proof (getAccessToken_setTokens a r 0 b) as [Ha _].
  pose proof (getRefreshToken_setTokens a r 0 b) as [Hr _].
  rewrite later_0 in Ha, Hr.
  split; [apply Ha|apply Hr]; vm_compute; discriminate.
Qed.

Lemma getTokens_removeTokens (b : Browser) :
  Token.getAccessToken (Token.removeTokens b) = None
  ∧ Token.getRefreshToken (Token.removeTokens b) = None.
Proof.
  unfold Token.getAccessToken, Token.getRefreshToken, Token.removeTokens,
    Cookies_get, Cookies_remove. cbn [jar clock].
  rewrite assoc_filter_out.
  rewrite assoc_filter_other by apply keys_differ.
  by rewrite assoc_filter_out.
Qed.

(** X20. Token cookies.  After [setTokens] the access token reads back
    until a second before one day has passed and is gone from one day on;
    the refresh token likewise with seven days.  [removeTokens] leaves
    neither.  Neither function touches a cookie of another name. *)
Theorem tokens_round_trip (a r : string) (ms : N) (b : Browser)
    (other : string) :
  let b' := later ms (Token.setTokens a r b) in
  ((ms + 1000 ≤ day)%N → Token.getAccessToken b' = Some a)
  ∧ ((day ≤ ms)%N → Token.getAccessToken b' = None)
  ∧ ((ms + 1000 ≤ 7 * day)%N → Token.getRefreshToken b' = Some r)
  ∧ ((7 * day ≤ ms)%N → Token.getRefreshToken b' = None)
  ∧ Token.getAccessToken (Token.removeTokens b') = None
  ∧ Token.getRefreshToken (Token.removeTokens b') = None
  ∧ (other ≠ Token.ACCESS_KEY → other ≠ Token.REFRESH_KEY →
     assoc other (jar (Token.setTokens a r b)) = assoc other (jar b)
     ∧ assoc other (jar (Token.removeTokens b)) = assoc other (jar b)).
Proof.
  intros b'. subst b'.
  split; [apply getAccessToken_setTokens|].
  split; [apply getAccessToken_setTokens|].
  split; [apply getRefreshToken_setTokens|].
  split; [apply getRefreshToken_setTokens|].
  split; [apply getTokens_removeTokens|].
  split; [apply getTokens_removeTokens|].
  intros Ha Hr. unfold Token.setTokens, Token.removeTokens, Cookies_set,
    Cookies_remove. cbn [jar assoc].
  rewrite decide_False by done.
  rewrite !assoc_filter_other by done. cbn [jar assoc].
  rewrite decide_False by done.
  by rewrite assoc_filter_other by done.
Qed.

Lemma tokens_round_trip_witness :
  let b := Token.setTokens "acc" "ref" (mkBrowser 1234 [] "/login") in
  Token.getAccessToken (later 1000 b) = Some "acc"
  ∧ Token.getAccessToken (later (2 * day) b) = None
  ∧ Token.getRefreshToken (later (2 * day) b) = Some "ref"
  ∧ Token.getRefreshToken (later (7 * day) b) = None
  ∧ assoc "theme" (jar (Token.setTokens "acc" "ref"
                          (mkBrowser 0 [("theme", mkCookie "dark" 5)] "/")))
    = Some (mkCookie "dark" 5).
Proof.
  intros b.
  destruct (tokens_round_trip "acc" "ref" 1000 (mkBrowser 1234 [] "/login") "x")
    as (H1 & _).
  destruct (tokens_round_trip "acc" "ref" (2 * day) (mkBrowser 1234 [] "/login") "x")
    as (_ & H2 & H3 & _).
  destruct (tokens_round_trip "acc" "ref" (7 * day) (mkBrowser 1234 [] "/login") "x")
    as (_ & _ & _ & H4 & _).
  destruct (tokens_round_trip "acc" "ref" 0
              (mkBrowser 0 [("theme", mkCookie "dark" 5)] "/") "theme")
    as (_ & _ & _ & _ & _ & _ & H5).
  split; [apply H1; vm_compute; discriminate|].
  split; [apply H2; vm_compute; discriminate|].
  split; [apply H3; vm_compute; discriminate|].
  split; [apply H4; vm_compute; discriminate|].
  destruct H5 as [H5 _]; [discriminate|discriminate|]. exact H5.
Defined.

(** ** Axios interceptors *)

(** Every request leaves with [Authorization: Bearer <token>] exactly
    when a non-empty, unexpired access token is stored, and with no such
    header otherwise. *)
Lemma authorization_header (b : Browser) :
  assoc "Authorization" (Axios.outgoing_headers b)
  = match Token.getAccessToken b with
    | Some token => if decide (token = "") then None
                    else Some ("Bearer " +:+ token)
    | None => None
    end.
Proof.
  unfold Axios.outgoing_headers, Axios.request_interceptor,
    Axios.default_headers.
  destruct (Token.getAccessToken b) as [token|]; [|done].
  destruct token as [|c token]; [done|].
  rewrite decide_False by discriminate. reflexivity.
Qed.

Lemma rejection_frame (error : HttpError) (b : Browser) :
  ∃ b', (∀ A, Axios.awaiting (A := A) (Failed error) b = (Raised error, b'))
        ∧ (status error = Some 401 → location b' = "/login")
        ∧ (status error ≠ Some 401 → b' = b).
Proof.
  unfold Axios.awaiting, Axios.response_interceptor.
  destruct (status error) as [code|] eqn:Hs.
  - destruct (decide (code = 401)) as [->|Hne].
    + exists (go "/login" (Token.removeTokens b)).
      split; [intros A; reflexivity|]. split; [done|congruence].
    + exists b. split; [intros A; reflexivity|]. split; [congruence|done].
  - exists b. split; [intros A; reflexivity|]. split; [congruence|done].
Qed.

(** X21. A rejected request is always rejected to the caller with the same
    error.  A 401 removes both tokens and sends the browser to [/login],
    after which requests leave without an [Authorization] header; any other
    rejection, a missing response included, leaves the browser as it was. *)
Theorem unauthorized_ends_session {A} (error : HttpError) (b : Browser) :
  let r := Axios.awaiting (A := A) (Failed error) b in
  r.1 = Raised error
  ∧ (status error = Some 401 →
     Token.getAccessToken r.2 = None
     ∧ Token.getRefreshToken r.2 = None
     ∧ location r.2 = "/login"
     ∧ assoc "Authorization" (Axios.outgoing_headers r.2) = None)
  ∧ (status error ≠ Some 401 → r.2 = b).
Proof.
  intros r. subst r. unfold Axios.awaiting, Axios.response_interceptor.
  destruct (status error) as [code|] eqn:Hs.
  - destruct (decide (code = 401)) as [->|Hne].
    + unfold mbind, Eff_bind, update, raise. cbn [fst snd].
      split; [done|]. split; [|congruence]. intros _.
      pose proof (getTokens_removeTokens b) as [Ha Hr].
      rewrite authorization_header.
      change (Token.getAccessToken (go "/login" (Token.removeTokens b)))
        with (Token.getAccessToken (Token.removeTokens b)).
      change (Token.getRefreshToken (go "/login" (Token.removeTokens b)))
        with (Token.getRefreshToken (Token.removeTokens b)).
      rewrite Ha, Hr. done.
    + unfold_session. split; [done|]. split; [congruence|done].
  - unfold_session. split; [done|]. split; [congruence|done].
Qed.

Lemma unauthorized_ends_session_witness :
  let b := Token.setTokens "acc" "ref" (mkBrowser 0 [] "/chat") in
  let r := Axios.awaiting (A := unit) (Failed (mkHttpError (Some 401) detail_other)) b in
  Token.getAccessToken b = Some "acc"
  ∧ Token.getAccessToken r.2 = None
  ∧ location r.2 = "/login"
  ∧ Axios.awaiting (A := unit) (Failed (mkHttpError (Some 500) detail_other)) b
    = (Raised (mkHttpError (Some 500) detail_other), b).
Proof.
  intros b r.
  destruct (unauthorized_ends_session (A := unit)
              (mkHttpError (Some 401) detail_other) b) as (_ & H1 & _).
  destruct (unauthorized_ends_session (A := unit)
              (mkHttpError (Some 500) detail_other) b) as (H2 & _ & H3).
  destruct (H1 eq_refl) as (Ha & _ & Hl & _).
  split; [vm_compute; reflexivity|].
  split; [exact Ha|]. split; [exact Hl|].
  apply injective_projections; [exact H2|apply H3; discriminate].
Defined.

(** ** The auth context *)

(** X22. Hydration on mount.  Without a usable access token no profile is
    requested and loading ends at once; with one, the provider keeps
    loading until the request settles.  When it settles, loading ends in
    every case and nothing is thrown; a profile signs the user in and
    leaves the browser alone, a failure of any kind removes both tokens
    and signs nobody in. *)
Theorem hydrate_outcomes (b : Browser) (a : Auth.State)
    (res : Response HttpError User) :
  (truthy (Token.getAccessToken b) = false →
   Auth.hydrate (Auth.initial b) = (Done false, Auth.mkState b None false))
  ∧ (truthy (Token.getAccessToken b) = true →
     Auth.hydrate (Auth.initial b) = (Done true, Auth.initial b))
  ∧ (Auth.hydrate_resume res a).1 = Done tt
  ∧ Auth.loading (Auth.hydrate_resume res a).2 = false
  ∧ match res with
    | Fulfilled u =>
        Auth.user (Auth.hydrate_resume res a).2 = Some u
        ∧ Auth.browser (Auth.hydrate_resume res a).2 = Auth.browser a
    | Failed _ =>
        Auth.user (Auth.hydrate_resume res a).2 = Auth.user a
        ∧ Token.getAccessToken (Auth.browser (Auth.hydrate_resume res a).2) = None
        ∧ Token.getRefreshToken (Auth.browser (Auth.hydrate_resume res a).2) = None
    end.
Proof.
  split; [|split].
  - intros Ht. unfold Auth.hydrate, Auth.initial.
    unfold mbind, Eff_bind, reads. cbn [Auth.browser]. rewrite Ht.
    reflexivity.
  - intros Ht. unfold Auth.hydrate, Auth.initial.
    unfold mbind, Eff_bind, reads. cbn [Auth.browser]. rewrite Ht.
    reflexivity.
  - destruct res as [u|e].
    + unfold_session. done.
    + unfold Auth.hydrate_resume, Auth.in_browser, finally, catching, within,
        mbind, Eff_bind.
      destruct (rejection_frame e (Auth.browser a)) as (b' & Hr & _).
      rewrite (Hr User). cbn.
      pose proof (getTokens_removeTokens b') as [Ha Hf]. done.
Qed.

Lemma hydrate_outcomes_witness :
  Auth.hydrate (Auth.initial (mkBrowser 0 [] "/chat"))
  = (Done false, Auth.mkState (mkBrowser 0 [] "/chat") None false)
  ∧ Auth.hydrate (Auth.initial (Token.setTokens "acc" "ref" (mkBrowser 0 [] "/chat")))
    = (Done true, Auth.initial (Token.setTokens "acc" "ref" (mkBrowser 0 [] "/chat"))).
Proof.
  destruct (hydrate_outcomes (mkBrowser 0 [] "/chat")
              (Auth.initial (mkBrowser 0 [] "/chat"))
              (Fulfilled Scenario.alice)) as (H1 & _).
  destruct (hydrate_outcomes (Token.setTokens "acc" "ref" (mkBrowser 0 [] "/chat"))
              (Auth.initial (mkBrowser 0 [] "/chat"))
              (Fulfilled Scenario.alice)) as (_ & H2 & _).
  split; [apply H1; vm_compute; reflexivity|apply H2; vm_compute; reflexivity].
Defined.

(** X23. Signing in and out.  A successful [login] or [register] returns
    the user, signs them in and stores both tokens, readable at once; a
    failed one throws the server's error to the caller and signs nobody
    in; [logout] leaves no user and no token, whatever came before. *)
Theorem login_logout (a : Auth.State) (res : Response HttpError Auth.Tokens) :
  Auth.register_resume res a = Auth.login_resume res a
  ∧ match res with
    | Fulfilled data =>
        (Auth.login_resume res a).1 = Done (Auth.user_data data)
        ∧ Auth.user (Auth.login_resume res a).2 = Some (Auth.user_data data)
        ∧ Token.getAccessToken (Auth.browser (Auth.login_resume res a).2)
          = Some (Auth.access_token data)
        ∧ Token.getRefreshToken (Auth.browser (Auth.login_resume res a).2)
          = Some (Auth.refresh_token data)
        ∧ location (Auth.browser (Auth.login_resume res a).2)
          = location (Auth.browser a)
    | Failed error =>
        (Auth.login_resume res a).1 = Raised error
        ∧ Auth.user (Auth.login_resume res a).2 = Auth.user a
        ∧ (status error ≠ Some 401 → (Auth.login_resume res a).2 = a)
    end
  ∧ (Auth.logout (Auth.login_resume res a).2).1 = Done tt
  ∧ Auth.user (Auth.logout (Auth.login_resume res a).2).2 = None
  ∧ Token.getAccessToken (Auth.browser (Auth.logout (Auth.login_resume res a).2).2) = None
  ∧ Token.getRefreshToken (Auth.browser (Auth.logout (Auth.login_resume res a).2).2) = None.
Proof.
  split; [reflexivity|].
  assert (Hout : ∀ a', (Auth.logout a').1 = Done tt
    ∧ Auth.user (Auth.logout a').2 = None
    ∧ Token.getAccessToken (Auth.browser (Auth.logout a').2) = None
    ∧ Token.getRefreshToken (Auth.browser (Auth.logout a').2) = None).
  { intros a'. pose proof (getTokens_removeTokens (Auth.browser a')) as [? ?].
    unfold Auth.logout, Auth.setUser, Auth.with_browser, update, mbind,
      Eff_bind. cbn. done. }
  split; [|apply Hout].
  destruct res as [data|error].
  - pose proof (getTokens_setTokens (Auth.access_token data)
                  (Auth.refresh_token data) (Auth.browser a)) as [Ha Hr].
    unfold Auth.login_resume, Auth.in_browser, Auth.setUser, Auth.with_browser,
      Axios.awaiting, within, update, mbind, Eff_bind, mret, Eff_ret.
    cbn [fst snd Auth.browser Auth.user Auth.loading].
    done.
  - unfold Auth.login_resume, Auth.in_browser, within, mbind, Eff_bind.
    destruct (rejection_frame error (Auth.browser a)) as (b' & Hr & _ & Hsame).
    rewrite (Hr Auth.Tokens). cbn.
    split; [done|]. split; [done|]. intros Hne. rewrite (Hsame Hne).
    by destruct a.
Qed.

Lemma login_logout_witness :
  Auth.login_resume (Failed (mkHttpError (Some 400) (detail_string "Invalid credentials")))
    (Auth.mkState (mkBrowser 0 [] "/login") None false)
  = (Raised (mkHttpError (Some 400) (detail_string "Invalid credentials")),
     Auth.mkState (mkBrowser 0 [] "/login") None false).
Proof.
  destruct (login_logout (Auth.mkState (mkBrowser 0 [] "/login") None false)
    (Failed (mkHttpError (Some 400) (detail_string "Invalid credentials"))))
    as (_ & (H1 & _ & H2) & _).
  apply injective_projections; [exact H1|apply H2; discriminate].
Defined.

(** ** The route guards *)

(** X24. From every route and in every auth state the router comes to rest
    after at most two redirects, so the guards cannot bounce a visitor
    between [/login] and [/chat]; what is then on screen depends on the
    auth state alone: the loading screen while loading, the chat page for a
    signed-in user, the login page for anyone else. *)
Theorem routes_settle (m : Router.Matched) (a : Auth.State) :
  Router.settle 2 m a
  = Some (if Auth.loading a then Router.LoadingScreen
          else match Auth.user a with
               | Some _ => Router.ChatPage
               | None => Router.LoginPage
               end).
Proof.
  destruct a as [b [u|] [|]], m; reflexivity.
Qed.

(** ** The sidebar *)

(** X25. User search.  A query of fewer than two characters clears the
    results and asks the server nothing; a longer one raises the searching
    flag and issues exactly one search for that query.  When a search
    settles the flag drops in every case and nothing is thrown: the results
    are the users of the response, none when the response has no user list,
    and none when the request failed.  The results are those of the
    response that settled last, whatever the query is by then. *)
Theorem search_outcomes (q : string) (s : Sidebar.State)
    (res : Settled (option (list Sidebar.Hit))) :
  (String.length q < 2 →
   Sidebar.handleSearch q s
   = (Done tt, Sidebar.mkState q [] (Sidebar.searching s) (Sidebar.calls s)))
  ∧ (2 ≤ String.length q →
     Sidebar.handleSearch q s
     = (Done tt, Sidebar.mkState q (Sidebar.searchResults s) true
                   (Sidebar.calls s ++ [Sidebar.searchUsers q])))
  ∧ Sidebar.handleSearch_resume res s
    = (Done tt,
       Sidebar.mkState (Sidebar.searchQuery s)
         match res with
         | Resolved (Some users) => users
         | _ => []
         end
         false (Sidebar.calls s)).
Proof.
  split; [|split].
  - intros Hq. unfold Sidebar.handleSearch, mbind, Eff_bind,
      Sidebar.setSearchQuery, Sidebar.setSearchResults, update.
    rewrite decide_True by done. reflexivity.
  - intros Hq. unfold Sidebar.handleSearch, mbind, Eff_bind,
      Sidebar.setSearchQuery, Sidebar.setSearching, Sidebar.call, update.
    rewrite decide_False by lia. reflexivity.
  - destruct res as [[users|]|err]; reflexivity.
Qed.

Lemma search_outcomes_witness :
  Sidebar.handleSearch "b" (Sidebar.mkState "bo" [] true [Sidebar.searchUsers "bo"])
  = (Done tt, Sidebar.mkState "b" [] true [Sidebar.searchUsers "bo"])
  ∧ Sidebar.handleSearch "bo" (Sidebar.mkState "b" [] false [])
    = (Done tt, Sidebar.mkState "bo" [] true [Sidebar.searchUsers "bo"]).
Proof.
  destruct (search_outcomes "b"
              (Sidebar.mkState "bo" [] true [Sidebar.searchUsers "bo"])
              (Rejected "x")) as (H1 & _).
  destruct (search_outcomes "bo" (Sidebar.mkState "b" [] false [])
              (Rejected "x")) as (_ & H2 & _).
  split; [apply H1; vm_compute; lia|apply H2; vm_compute; lia].
Defined.


(** ** The login page *)

(** X27. Submitting the form.  In register mode with a confirmation that
    differs from the password nothing is requested: the page shows
    [Passwords do not match] and does not start loading.  Otherwise the
    error is cleared, loading starts and one request is made: a
    registration with user name, e-mail and password, or in sign-in mode a
    login with e-mail and password, where the confirmation field is not
    looked at. *)
Theorem submit_guard (s : Login.State) :
  let f := Login.form s in
  (Login.isRegister s = true →
   Login.password f ≠ Login.confirmPassword f →
   Login.handleSubmit s
   = (Done Login.nothing,
      Login.mkState (Login.auth s) true f "Passwords do not match"
        (Login.loading s)))
  ∧ (Login.isRegister s = true →
     Login.password f = Login.confirmPassword f →
     Login.handleSubmit s
     = (Done (Login.registering (Login.username f) (Login.email f)
                (Login.password f)),
        Login.mkState (Login.auth s) true f "" true))
  ∧ (Login.isRegister s = false →
     Login.handleSubmit s
     = (Done (Login.logging_in (Login.email f) (Login.password f)),
        Login.mkState (Login.auth s) false f "" true)).
Proof.
  intros f. subst f. destruct s as [a r f e l]. cbn.
  split; [|split].
  - intros -> Hne%String.eqb_neq. unfold_session. by rewrite Hne.
  - intros -> Heq%String.eqb_eq. unfold_session. by rewrite Heq.
  - intros ->. reflexivity.
Qed.

Lemma submit_guard_witness :
  Login.handleSubmit
    (Login.mkState (Auth.mkState (mkBrowser 0 [] "/login") None false) true
       (Login.mkForm "a@b.c" "alice" "secret" "secrte") "old" false)
  = (Done Login.nothing,
     Login.mkState (Auth.mkState (mkBrowser 0 [] "/login") None false) true
       (Login.mkForm "a@b.c" "alice" "secret" "secrte")
       "Passwords do not match" false)
  ∧ Login.handleSubmit
      (Login.mkState (Auth.mkState (mkBrowser 0 [] "/login") None false) true
         (Login.mkForm "a@b.c" "alice" "secret" "secret") "old" false)
    = (Done (Login.registering "alice" "a@b.c" "secret"),
       Login.mkState (Auth.mkState (mkBrowser 0 [] "/login") None false) true
         (Login.mkForm "a@b.c" "alice" "secret" "secret") "" true)
  ∧ Login.handleSubmit
      (Login.mkState (Auth.mkState (mkBrowser 0 [] "/login") None false) false
         (Login.mkForm "a@b.c" "" "secret" "other") "old" false)
    = (Done (Login.logging_in "a@b.c" "secret"),
       Login.mkState (Auth.mkState (mkBrowser 0 [] "/login") None false) false
         (Login.mkForm "a@b.c" "" "secret" "other") "" true).
Proof.
  split; [|split].
  - apply (submit_guard
      (Login.mkState (Auth.mkState (mkBrowser 0 [] "/login") None false) true
         (Login.mkForm "a@b.c" "alice" "secret" "secrte") "old" false));
      [reflexivity|discriminate].
  - apply (submit_guard
      (Login.mkState (Auth.mkState (mkBrowser 0 [] "/login") None false) true
         (Login.mkForm "a@b.c" "alice" "secret" "secret") "old" false));
      reflexivity.
  - apply (submit_guard
      (Login.mkState (Auth.mkState (mkBrowser 0 [] "/login") None false) false
         (Login.mkForm "a@b.c" "" "secret" "other") "old" false));
      reflexivity.
Defined.

Lemma login_resume_split (res : Response HttpError Auth.Tokens) (a : Auth.State) :
  match res with
  | Fulfilled data =>
      Auth.login_resume res a
      = (Done (Auth.user_data data),
         Auth.mkState
           (Token.setTokens (Auth.access_token data) (Auth.refresh_token data)
              (Auth.browser a))
           (Some (Auth.user_data data)) (Auth.loading a))
  | Failed error =>
      ∃ b', Auth.login_resume res a
            = (Raised error, Auth.mkState b' (Auth.user a) (Auth.loading a))
            ∧ (status error = Some 401 → location b' = "/login")
            ∧ (status error ≠ Some 401 → b' = Auth.browser a)
  end.
Proof.
  destruct res as [data|error]; [reflexivity|].
  unfold Auth.login_resume, Auth.in_browser, within, mbind, Eff_bind.
  pose proof (rejection_frame error (Auth.browser a))
    as (b' & Hr & H1 & H2).
  rewrite (Hr Auth.Tokens). cbn. by exists b'.
Qed.



(** X29. From sign-in to a connected page.  After a submit that the server
    accepts with a non-empty access token, in a session that has finished
    hydrating, the router renders the chat page at the address the login
    page navigated to, and the chat page mounted there opens its socket
    with exactly the access token the server issued and for the user it
    returned. *)
Theorem sign_in_reaches_connected_chat (registering : bool)
    (data : Auth.Tokens) (s : Login.State) :
  Auth.loading (Login.auth s) = false →
  Auth.access_token data ≠ "" →
  let a := Login.auth
             (Login.handleSubmit_resume registering (Fulfilled data) s).2 in
  let st := mount (Token.getAccessToken (Auth.browser a)) (Auth.user a) in
  Router.settle 0 (Router.matching (location (Auth.browser a))) a
  = Some Router.ChatPage
  ∧ currentUser st = Some (Auth.user_data data)
  ∧ ∃ sock, socket (env st) = Some sock
            ∧ auth_token sock = Auth.access_token data.
Proof.
  intros Hl Hne a st.
  assert (Ha : a = Auth.mkState
                 (go "/chat" (Token.setTokens (Auth.access_token data)
                    (Auth.refresh_token data) (Auth.browser (Login.auth s))))
                 (Some (Auth.user_data data)) false).
  { subst a.
    transitivity (Auth.mkState
                 (go "/chat" (Token.setTokens (Auth.access_token data)
                    (Auth.refresh_token data) (Auth.browser (Login.auth s))))
                 (Some (Auth.user_data data)) (Auth.loading (Login.auth s)));
      [destruct registering; reflexivity|by rewrite Hl]. }
  assert (Ht : Token.getAccessToken (Auth.browser a)
               = Some (Auth.access_token data)).
  { rewrite Ha. cbn [Auth.browser].
    change (Token.getAccessToken (go "/chat" ?b)) with (Token.getAccessToken b).
    apply getTokens_setTokens. }
  subst st. rewrite Ht. rewrite Ha. cbn [Auth.user Auth.browser].
  split; [reflexivity|].
  unfold mount, boot. unfold_handler.
  apply String.eqb_neq in Hne. rewrite Hne. cbn.
  split; [done|]. by eexists.
Qed.

Lemma sign_in_reaches_connected_chat_witness :
  ∃ sock,
    socket (env (mount (Some "acc") (Some Scenario.alice))) = Some sock
    ∧ auth_token sock = "acc".
Proof.
  pose (s := Login.mkState (Auth.mkState (mkBrowser 0 [] "/login") None false)
               false (Login.mkForm "a@b.c" "" "secret" "") "" true).
  pose (data := Auth.mkTokens "acc" "ref" Scenario.alice).
  assert (H1 : Auth.loading (Login.auth s) = false) by reflexivity.
  assert (H2 : Auth.access_token data ≠ "") by discriminate.
  destruct (sign_in_reaches_connected_chat false data s H1 H2)
    as (_ & _ & sock & Hs & Ht).
  exists sock. split; [exact Hs|exact Ht].
Defined.

(** X30. The refresh token is never used.  One day after sign-in the
    access token has expired while the refresh token is still stored, for
    six more days; a page loaded then finds no access token, asks the
    server nothing, ends loading with nobody signed in, and every route
    comes to rest on the login page. *)
Theorem expired_access_token_signs_out (a r : string) (ms : N) (b : Browser)
    (m : Router.Matched) :
  (day ≤ ms)%N → (ms + 1000 ≤ 7 * day)%N →
  let b' := later ms (Token.setTokens a r b) in
  Token.getRefreshToken b' = Some r
  ∧ Auth.hydrate (Auth.initial b') = (Done false, Auth.mkState b' None false)
  ∧ Router.settle 2 m (Auth.hydrate (Auth.initial b')).2
    = Some Router.LoginPage.
Proof.
  intros Hday Hweek b'.
  pose proof (getAccessToken_setTokens a r ms b) as [_ Ha].
  pose proof (getRefreshToken_setTokens a r ms b) as [Hr _].
  specialize (Ha Hday). specialize (Hr Hweek). fold b' in Ha, Hr.
  assert (Hh : Auth.hydrate (Auth.initial b')
               = (Done false, Auth.mkState b' None false)).
  { unfold Auth.hydrate, Auth.initial, mbind, Eff_bind, reads.
    cbn [Auth.browser]. rewrite Ha. reflexivity. }
  split; [done|]. split; [done|].
  rewrite Hh. by destruct m.
Qed.

Lemma expired_access_token_signs_out_witness :
  let b' := later (3 * day) (Token.setTokens "acc" "ref" (mkBrowser 0 [] "/chat")) in
  Token.getRefreshToken b' = Some "ref"
  ∧ Auth.hydrate (Auth.initial b') = (Done false, Auth.mkState b' None false)
  ∧ Router.settle 2 Router.chat (Auth.hydrate (Auth.initial b')).2
    = Some Router.LoginPage.
Proof.
  assert (H1 : (day ≤ 3 * day)%N) by (vm_compute; discriminate).
  assert (H2 : (3 * day + 1000 ≤ 7 * day)%N) by (vm_compute; discriminate).
  exact (expired_access_token_signs_out "acc" "ref" (3 * day)
           (mkBrowser 0 [] "/chat") Router.chat H1 H2).
Defined.
